(** * test-cpp: a shallow embedding of the calculator, the encapsulated
    bank account, the decorator chains and the singleton holders.

    C++ [double] is IEEE-754 binary64 and is embedded as Rocq's primitive
    [float]; [int] is embedded as [Z], and where a sum or product of the
    source can leave the range of [int] the embedding says what happens there
    ([int_wrap], [SignedOverflow]) or the statement carries the bound that
    keeps it inside; [std::string] is a byte string, embedded as
    [string]; [std::cout] is an explicit output stream threaded through the
    code; a thrown exception is an explicit outcome. *)

From Stdlib Require Import ZArith Floats Uint63 Lia Bool List Ascii String.
From Stdlib Require Import DecimalString.
From Stdlib Require Import Sorted.
From stdpp Require Import gmap.
Import ListNotations.

Set Warnings "-inexact-float".
#[local] Open Scope Z_scope.

(** ** The C++ run-time notions the sources rely on *)

Module Cxx.

(** [std::invalid_argument] and [std::runtime_error], with [what()]. *)
Inductive exception : Type :=
| invalid_argument (what : string)
| runtime_error (what : string).

Definition what (e : exception) : string :=
  match e with
  | invalid_argument w => w
  | runtime_error w => w
  end.

(** A call either returns a value or leaves by a thrown exception. *)
Inductive outcome (A : Type) : Type :=
| Returned (a : A)
| Thrown (e : exception).
Arguments Returned {A} a.
Arguments Thrown {A} e.

Definition is_thrown {A} (o : outcome A) : bool :=
  match o with Thrown _ => true | Returned _ => false end.

(** What is inserted into [std::cout] with [<<], in program order. A double
    is kept as the value inserted (its decimal formatting is not modelled). *)
Inductive out_item : Type :=
| OStr (s : string)
| ODouble (d : float)
| OEndl.

Definition ostream : Type := list out_item.

(** Stateful, throwing code over a state [S]: the state reached is kept
    also when the call throws. *)
Definition M (S A : Type) : Type := S -> outcome A * S.

Definition ret {S A} (a : A) : M S A := fun s => (Returned a, s).

Definition bind {S A B} (m : M S A) (k : A -> M S B) : M S B :=
  fun s =>
    match m s with
    | (Returned a, s') => k a s'
    | (Thrown e, s') => (Thrown e, s')
    end.

Definition throw {S A} (e : exception) : M S A := fun s => (Thrown e, s).
Definition get {S} : M S S := fun s => (Returned s, s).
Definition modify {S} (f : S -> S) : M S unit := fun s => (Returned tt, f s).

(** [if (c) throw e;] *)
Definition throw_if {S} (c : bool) (e : exception) : M S unit :=
  if c then throw e else ret tt.

(** The conversion of a (non-overflowing) [int] to [double]; exact for every
    32-bit [int]. *)
Definition double_of_int (z : Z) : float :=
  if z <? 0 then PrimFloat.opp (PrimFloat.of_uint63 (Uint63.of_Z (- z)))
  else PrimFloat.of_uint63 (Uint63.of_Z z).

(** The least and the largest [int]. *)
Definition INT_MIN : Z := -2147483648.
Definition INT_MAX : Z := 2147483647.

(** What an addition on [int] leaves for the sum [z]: [z] itself when it is
    an [int]; when it is not (signed overflow, for which the language
    defines nothing) the [int] the two's-complement machine leaves, [z]
    modulo 2^32. *)
Definition int_wrap (z : Z) : Z := (z - INT_MIN) mod 2 ^ 32 + INT_MIN.

(** [x > y] on doubles is [y < x]: false as soon as one side is a NaN. *)
Definition dgt (x y : float) : bool := PrimFloat.ltb y x.

(** [x < 0] on the IEEE-754 specification of a double. *)
Definition spec_negative (x : spec_float) : bool := SFltb x (S754_zero false).

End Cxx.

Declare Scope cxx_scope.
Delimit Scope cxx_scope with cxx.
Notation "x <- m ;; k" := (Cxx.bind m (fun x => k))
  (at level 100, m at next level, right associativity) : cxx_scope.
Notation "m ;;; k" := (Cxx.bind m (fun _ => k))
  (at level 100, right associativity) : cxx_scope.

(** ** Calculator (calculator.cpp) *)

Module Calculator.
Import Cxx.

(** The loop [for (int i = 2; i <= n; ++i) result *= i;], its guard tested
    at each turn and [++i] taken in [int]; [None] only when the turns allowed
    are used up (for [n = INT_MAX] the counter wraps and the guard never
    fails). *)
Fixpoint factorial_loop (turns : nat) (n i : Z) (result : float)
  : option float :=
  match turns with
  | O => None
  | S turns' =>
      if i <=? n
      then factorial_loop turns' n (int_wrap (i + 1))
             (PrimFloat.mul result (double_of_int i))
      else Some result
  end.

(** [double Calculator::factorial(int n)]. *)
Definition factorial (n : Z) : option (outcome float) :=
  if n <? 0 then
    Some (Thrown (runtime_error "Factorial of negative number is undefined!"))
  else if (n =? 0) || (n =? 1) then Some (Returned 1%float)
  else
    match factorial_loop (Z.to_nat n) n 2 1%float with
    | Some result => Some (Returned result)
    | None => None
    end.

(** [double Calculator::divide(double a, double b)]. *)
Definition divide (a b : float) : outcome float :=
  if PrimFloat.eqb b 0%float then Thrown (runtime_error "Division by zero!")
  else Returned (PrimFloat.div a b).

(** What a computation on [int]s gives: a value, or no defined behaviour
    because a signed operation overflowed. *)
Inductive defined (A : Type) : Type :=
| Value (a : A)
| SignedOverflow.
Arguments Value {A} a.
Arguments SignedOverflow {A}.

(** The loop [for (int i = 5; i * i <= n; i += 6)] of [isPrime]; [%] is
    [Z.rem]. The product [i * i] is computed in [int]. *)
Fixpoint isPrime_loop (turns : nat) (n i : Z) : option (defined bool) :=
  match turns with
  | O => None
  | S turns' =>
      if INT_MAX <? i * i then Some SignedOverflow
      else if i * i <=? n then
        if (Z.rem n i =? 0) || (Z.rem n (i + 2) =? 0)
        then Some (Value false)
        else isPrime_loop turns' n (i + 6)
      else Some (Value true)
  end.

(** [bool Calculator::isPrime(int n)]. *)
Definition isPrime (n : Z) : option (defined bool) :=
  if n <=? 1 then Some (Value false)
  else if n <=? 3 then Some (Value true)
  else if (Z.rem n 2 =? 0) || (Z.rem n 3 =? 0) then Some (Value false)
  else isPrime_loop (Z.to_nat (Z.sqrt n)) n 5.

(** No number from 2 up to [i], [i] left out, divides [n]: what the loop of
    [isPrime] has established when it tests [i]. *)
Definition no_divisor_below (n i : Z) : Prop :=
  forall d : Z, 1 < d < i -> ~ (d | n).

(** [double Calculator::add], [subtract] and [multiply]. *)
Definition add (a b : float) : float := PrimFloat.add a b.
Definition subtract (a b : float) : float := PrimFloat.sub a b.
Definition multiply (a b : float) : float := PrimFloat.mul a b.

(** The integer a double stands for, when it is one: read off its IEEE-754
    specification (sign, mantissa [m], exponent [e]: the value m * 2^e). *)
Definition integer_value (d : float) : option Z :=
  match Prim2SF d with
  | S754_zero _ => Some 0
  | S754_finite s m e =>
      let v := if s then Z.neg m else Z.pos m in
      if 0 <=? e then Some (v * 2 ^ e)
      else if Z.rem v (2 ^ (- e)) =? 0 then Some (Z.quot v (2 ^ (- e)))
      else None
  | _ => None
  end.

(** The factorial of a natural number, as an integer. *)
Fixpoint Zfact (n : nat) : Z :=
  match n with
  | O => 1
  | S n' => Z.of_nat n * Zfact n'
  end.

End Calculator.

(** ** BankAccount (basic/encapsulation.hpp, namespace BasicConcepts) *)

Module BasicConcepts.
Import Cxx.
#[local] Open Scope cxx_scope.

(** The private data members of [class BankAccount]. *)
Record BankAccount : Type := mkBankAccount {
  accountHolder : string;
  accountNumber : string;
  balance : float;
  pin : string;
  isActive : bool
}.

(** A member function runs on the object and on [std::cout]. *)
Record state : Type := mkState {
  self : BankAccount;
  cout : ostream
}.

Definition this : M state BankAccount := fun s => (Returned (self s), s).

Definition print (items : list out_item) : M state unit :=
  modify (fun s => mkState (self s) (cout s ++ items)).

Definition set_balance (b : float) : M state unit :=
  modify (fun s =>
    let a := self s in
    mkState (mkBankAccount (accountHolder a) (accountNumber a) b (pin a)
               (isActive a)) (cout s)).

Definition set_pin (p : string) : M state unit :=
  modify (fun s =>
    let a := self s in
    mkState (mkBankAccount (accountHolder a) (accountNumber a) (balance a) p
               (isActive a)) (cout s)).

Definition set_isActive (b : bool) : M state unit :=
  modify (fun s =>
    let a := self s in
    mkState (mkBankAccount (accountHolder a) (accountNumber a) (balance a)
               (pin a) b) (cout s)).

(** [bool validatePin(const std::string& inputPin) const] *)
Definition validatePin (a : BankAccount) (inputPin : string) : bool :=
  String.eqb (pin a) inputPin.

(** [bool isAccountActive() const] *)
Definition isAccountActive (a : BankAccount) : bool := isActive a.

(** [void logTransaction(const std::string& operation, double amount)] *)
Definition logTransaction (operation : string) (amount : float)
  : M state unit :=
  a <- this ;;
  print [OStr "[LOG] "; OStr operation; OStr " of $"; ODouble amount;
         OStr " on account "; OStr (accountNumber a); OEndl].

(** The constructor; it runs on [std::cout] alone and either throws or
    gives the object constructed. *)
Definition constructor (holder accNum userPin : string)
  (initialBalance : float) : M ostream BankAccount :=
  throw_if (String.length holder =? 0)%nat
    (invalid_argument "Account holder name cannot be empty") ;;;
  throw_if (String.length accNum <? 10)%nat
    (invalid_argument "Account number must be at least 10 digits") ;;;
  throw_if (negb (String.length userPin =? 4)%nat)
    (invalid_argument "PIN must be exactly 4 digits") ;;;
  throw_if (PrimFloat.ltb initialBalance 0%float)
    (invalid_argument "Initial balance cannot be negative") ;;;
  modify (fun out =>
    out ++ [OStr "Bank account created for "; OStr holder; OEndl]) ;;;
  ret (mkBankAccount holder accNum initialBalance userPin true).

(** [const std::string& getAccountHolder() const] *)
Definition getAccountHolder : M state string :=
  a <- this ;; ret (accountHolder a).

(** [std::string getMaskedAccountNumber() const] *)
Definition getMaskedAccountNumber : M state string :=
  a <- this ;;
  let n := String.length (accountNumber a) in
  if (4 <=? n)%nat
  then ret ("****" ++ String.substring (n - 4) 4 (accountNumber a))%string
  else ret "****"%string.

(** [double getBalance(const std::string& inputPin) const] *)
Definition getBalance (inputPin : string) : M state float :=
  a <- this ;;
  throw_if (negb (isAccountActive a))
    (runtime_error "Account is not active") ;;;
  throw_if (negb (validatePin a inputPin)) (runtime_error "Invalid PIN") ;;;
  ret (balance a).

(** [void deposit(double amount, const std::string& inputPin)] *)
Definition deposit (amount : float) (inputPin : string) : M state unit :=
  a <- this ;;
  throw_if (negb (isAccountActive a))
    (runtime_error "Account is not active") ;;;
  throw_if (negb (validatePin a inputPin)) (runtime_error "Invalid PIN") ;;;
  throw_if (PrimFloat.leb amount 0%float)
    (invalid_argument "Deposit amount must be positive") ;;;
  set_balance (PrimFloat.add (balance a) amount) ;;;
  logTransaction "Deposit" amount ;;;
  a' <- this ;;
  print [OStr "Deposited $"; ODouble amount; OStr ". New balance: $";
         ODouble (balance a'); OEndl].

(** [bool withdraw(double amount, const std::string& inputPin)] *)
Definition withdraw (amount : float) (inputPin : string) : M state bool :=
  a <- this ;;
  throw_if (negb (isAccountActive a))
    (runtime_error "Account is not active") ;;;
  throw_if (negb (validatePin a inputPin)) (runtime_error "Invalid PIN") ;;;
  throw_if (PrimFloat.leb amount 0%float)
    (invalid_argument "Withdrawal amount must be positive") ;;;
  if dgt amount (balance a) then
    print [OStr "Insufficient funds. Available balance: $";
           ODouble (balance a); OEndl] ;;;
    ret false
  else
    set_balance (PrimFloat.sub (balance a) amount) ;;;
    logTransaction "Withdrawal" amount ;;;
    a' <- this ;;
    print [OStr "Withdrawn $"; ODouble amount; OStr ". New balance: $";
           ODouble (balance a'); OEndl] ;;;
    ret true.

(** [bool changePin(const std::string& oldPin, const std::string& newPin)] *)
Definition changePin (oldPin newPin : string) : M state bool :=
  a <- this ;;
  if negb (validatePin a oldPin) then
    print [OStr "Invalid current PIN"; OEndl] ;;;
    ret false
  else if negb (String.length newPin =? 4)%nat then
    print [OStr "New PIN must be exactly 4 digits"; OEndl] ;;;
    ret false
  else
    set_pin newPin ;;;
    print [OStr "PIN changed successfully"; OEndl] ;;;
    ret true.

(** [void deactivateAccount(const std::string& inputPin)] *)
Definition deactivateAccount (inputPin : string) : M state unit :=
  a <- this ;;
  throw_if (negb (validatePin a inputPin)) (runtime_error "Invalid PIN") ;;;
  set_isActive false ;;;
  print [OStr "Account deactivated"; OEndl].

(** [void activateAccount(const std::string& inputPin)] *)
Definition activateAccount (inputPin : string) : M state unit :=
  a <- this ;;
  throw_if (negb (validatePin a inputPin)) (runtime_error "Invalid PIN") ;;;
  set_isActive true ;;;
  print [OStr "Account activated"; OEndl].

(** The public interface of the class, as one call with its arguments. *)
Inductive call : Type :=
| call_getAccountHolder
| call_getMaskedAccountNumber
| call_getBalance (inputPin : string)
| call_deposit (amount : float) (inputPin : string)
| call_withdraw (amount : float) (inputPin : string)
| call_changePin (oldPin newPin : string)
| call_deactivateAccount (inputPin : string)
| call_activateAccount (inputPin : string).

Inductive value : Type :=
| VVoid
| VBool (b : bool)
| VDouble (d : float)
| VString (s : string).

Definition invoke (c : call) : M state value :=
  match c with
  | call_getAccountHolder => s <- getAccountHolder ;; ret (VString s)
  | call_getMaskedAccountNumber =>
      s <- getMaskedAccountNumber ;; ret (VString s)
  | call_getBalance p => d <- getBalance p ;; ret (VDouble d)
  | call_deposit x p => deposit x p ;;; ret VVoid
  | call_withdraw x p => b <- withdraw x p ;; ret (VBool b)
  | call_changePin p q => b <- changePin p q ;; ret (VBool b)
  | call_deactivateAccount p => deactivateAccount p ;;; ret VVoid
  | call_activateAccount p => activateAccount p ;;; ret VVoid
  end.

(** A client's use of one account: calls in sequence, each one run whether
    the one before returned or threw (the client catches). *)
Fixpoint invoke_all (cs : list call) (s : state) : state :=
  match cs with
  | [] => s
  | c :: cs' => invoke_all cs' (snd (invoke c s))
  end.

(** The balance is negative: [balance < 0] on doubles. *)
Definition negative (d : float) : bool := PrimFloat.ltb d 0%float.

(** The balance is non-negative: [balance >= 0] on doubles. A NaN is
    neither negative nor non-negative. *)
Definition non_negative (d : float) : bool := PrimFloat.leb 0%float d.

(** The amount of a call is one the checks of the class are written for:
    not a NaN for a deposit, neither a NaN nor an infinity for a
    withdrawal; the other calls take no amount. *)
Definition amount_is_number (c : call) : bool :=
  match c with
  | call_deposit amount _ => negb (PrimFloat.is_nan amount)
  | call_withdraw amount _ => PrimFloat.is_finite amount
  | _ => true
  end.

(** *** Employee (same header) *)

(** The data members of [class Employee]. *)
Record Employee : Type := mkEmployee {
  employeeId : Z;
  firstName : string;
  lastName : string;
  department : string;
  salary : float;
  yearsOfExperience : Z;
  employeeActive : bool;
  skills : list string
}.

(** [operator<<] on an [int] inserts its decimal digits. *)
Definition OInt (z : Z) : out_item := OStr (NilZero.string_of_int (Z.to_int z)).

(** [bool isValidName(const std::string& name) const] *)
Definition isValidName (name : string) : bool :=
  negb (String.length name =? 0)%nat && (String.length name <=? 50)%nat.

(** [bool isValidSalary(double sal) const] *)
Definition isValidSalary (sal : float) : bool :=
  PrimFloat.leb 0 sal && PrimFloat.leb sal 1000000.

(** [bool isValidExperience(int years) const] *)
Definition isValidExperience (years : Z) : bool :=
  (0 <=? years) && (years <=? 50).

(** [std::string getFullName() const] *)
Definition getFullName (e : Employee) : string :=
  (firstName e ++ " " ++ lastName e)%string.

(** The constructor runs on the static [nextEmployeeId] and on
    [std::cout]. The member initializer [employeeId(++nextEmployeeId)] runs
    before the body: the counter is advanced also when the body throws. The
    counter is an [int]: the increment is taken in [int], and from [INT_MAX]
    it goes round to [INT_MIN]. *)
Record statics : Type := mkStatics {
  nextEmployeeId : Z;
  print_out : ostream
}.

Definition Employee_constructor (fName lName dept : string) (sal : float)
  (exp : Z) : M statics Employee :=
  fun st =>
    let id := int_wrap (nextEmployeeId st + 1) in
    let st1 := mkStatics id (print_out st) in
    if negb (isValidName fName) || negb (isValidName lName) then
      (Thrown (invalid_argument "Invalid name"), st1)
    else if negb (isValidSalary sal) then
      (Thrown (invalid_argument "Invalid salary"), st1)
    else if negb (isValidExperience exp) then
      (Thrown (invalid_argument "Invalid experience"), st1)
    else
      let e := mkEmployee id fName lName dept sal exp true [] in
      (Returned e,
       mkStatics id
         (print_out st ++ [OStr "Employee "; OStr (getFullName e);
                           OStr " created with ID: "; OInt id; OEndl])).

(** [int Employee::nextEmployeeId = 1000;] *)
Definition statics_at_start : statics := mkStatics 1000 [].

(** A member function of [Employee] runs on the object and [std::cout]. *)
Record employee_state : Type := mkEmployeeState {
  employee : Employee;
  employee_cout : ostream
}.

Definition employee_print (items : list out_item) : M employee_state unit :=
  modify (fun s => mkEmployeeState (employee s) (employee_cout s ++ items)).

Definition update (f : Employee -> Employee) : M employee_state unit :=
  modify (fun s => mkEmployeeState (f (employee s)) (employee_cout s)).

Definition set_department (d : string) (e : Employee) : Employee :=
  mkEmployee (employeeId e) (firstName e) (lastName e) d (salary e)
    (yearsOfExperience e) (employeeActive e) (skills e).

Definition set_salary (x : float) (e : Employee) : Employee :=
  mkEmployee (employeeId e) (firstName e) (lastName e) (department e) x
    (yearsOfExperience e) (employeeActive e) (skills e).

Definition set_yearsOfExperience (y : Z) (e : Employee) : Employee :=
  mkEmployee (employeeId e) (firstName e) (lastName e) (department e)
    (salary e) y (employeeActive e) (skills e).

Definition set_employeeActive (b : bool) (e : Employee) : Employee :=
  mkEmployee (employeeId e) (firstName e) (lastName e) (department e)
    (salary e) (yearsOfExperience e) b (skills e).

Definition push_back_skill (k : string) (e : Employee) : Employee :=
  mkEmployee (employeeId e) (firstName e) (lastName e) (department e)
    (salary e) (yearsOfExperience e) (employeeActive e) (skills e ++ [k]).

Definition inactive_employee : exception :=
  runtime_error "Cannot update inactive employee".

(** [void updateDepartment(const std::string& newDept)] *)
Definition updateDepartment (newDept : string) : M employee_state unit :=
  e <- (fun s => (Returned (employee s), s)) ;;
  throw_if (negb (employeeActive e)) inactive_employee ;;;
  update (set_department newDept) ;;;
  employee_print [OStr "Department updated to: "; OStr newDept; OEndl].

(** [void increaseSalary(double percentage)] *)
Definition increaseSalary (percentage : float) : M employee_state unit :=
  e <- (fun s => (Returned (employee s), s)) ;;
  throw_if (negb (employeeActive e)) inactive_employee ;;;
  throw_if (PrimFloat.ltb percentage 0 || dgt percentage 100)
    (invalid_argument "Invalid percentage") ;;;
  let increase := PrimFloat.mul (salary e) (PrimFloat.div percentage 100) in
  let newSalary := PrimFloat.add (salary e) increase in
  throw_if (negb (isValidSalary newSalary))
    (runtime_error "Salary increase would exceed maximum limit") ;;;
  update (set_salary newSalary) ;;;
  employee_print [OStr "Salary increased by "; ODouble percentage;
                  OStr "% to $"; ODouble newSalary; OEndl].

(** [void addExperience(int additionalYears)]; the sum is taken in
    [int]. *)
Definition addExperience (additionalYears : Z) : M employee_state unit :=
  e <- (fun s => (Returned (employee s), s)) ;;
  throw_if (negb (employeeActive e)) inactive_employee ;;;
  throw_if (additionalYears <? 0)
    (invalid_argument "Additional years cannot be negative") ;;;
  let newExperience := int_wrap (yearsOfExperience e + additionalYears) in
  throw_if (negb (isValidExperience newExperience))
    (runtime_error "Total experience would exceed maximum limit") ;;;
  update (set_yearsOfExperience newExperience) ;;;
  employee_print [OStr "Experience updated to "; OInt newExperience;
                  OStr " years"; OEndl].

(** The loop of [addSkill]: is there an [existingSkill == skill]? *)
Fixpoint skill_exists (skill : string) (existing : list string) : bool :=
  match existing with
  | [] => false
  | existingSkill :: rest =>
      if String.eqb existingSkill skill then true
      else skill_exists skill rest
  end.

(** [void addSkill(const std::string& skill)] *)
Definition addSkill (skill : string) : M employee_state unit :=
  e <- (fun s => (Returned (employee s), s)) ;;
  throw_if (negb (employeeActive e)) inactive_employee ;;;
  throw_if (String.length skill =? 0)%nat
    (invalid_argument "Skill cannot be empty") ;;;
  if skill_exists skill (skills e) then
    employee_print [OStr "Skill '"; OStr skill; OStr "' already exists";
                    OEndl]
  else
    update (push_back_skill skill) ;;;
    employee_print [OStr "Skill '"; OStr skill; OStr "' added"; OEndl].

(** [void deactivate()] and [void activate()] *)
Definition deactivate : M employee_state unit :=
  update (set_employeeActive false) ;;;
  e <- (fun s => (Returned (employee s), s)) ;;
  employee_print [OStr "Employee "; OStr (getFullName e);
                  OStr " deactivated"; OEndl].

Definition activate : M employee_state unit :=
  update (set_employeeActive true) ;;;
  e <- (fun s => (Returned (employee s), s)) ;;
  employee_print [OStr "Employee "; OStr (getFullName e);
                  OStr " activated"; OEndl].

(** The member functions that write to the object, as one call. *)
Inductive employee_call : Type :=
| call_updateDepartment (newDept : string)
| call_increaseSalary (percentage : float)
| call_addExperience (additionalYears : Z)
| call_addSkill (skill : string)
| call_deactivate
| call_activate.

Definition employee_invoke (c : employee_call) : M employee_state unit :=
  match c with
  | call_updateDepartment d => updateDepartment d
  | call_increaseSalary x => increaseSalary x
  | call_addExperience y => addExperience y
  | call_addSkill k => addSkill k
  | call_deactivate => deactivate
  | call_activate => activate
  end.

Fixpoint employee_invoke_all (cs : list employee_call) (s : employee_state)
  : employee_state :=
  match cs with
  | [] => s
  | c :: cs' => employee_invoke_all cs' (snd (employee_invoke c s))
  end.

(** What the validations of the class keep true of an employee. *)
Definition employee_valid (e : Employee) : Prop :=
  isValidName (firstName e) = true /\ isValidName (lastName e) = true /\
  isValidSalary (salary e) = true /\
  isValidExperience (yearsOfExperience e) = true /\
  List.NoDup (skills e) /\ ~ In EmptyString (skills e).

(** The arguments of one constructor call. *)
Record hiring : Type := mkHiring {
  hire_first : string;
  hire_last : string;
  hire_dept : string;
  hire_salary : float;
  hire_exp : Z
}.

(** Constructor calls in sequence, each one run whether the one before
    returned or threw; the employees constructed, in order. *)
Fixpoint hire_all (hs : list hiring) (st : statics) : list Employee :=
  match hs with
  | [] => []
  | h :: hs' =>
      match Employee_constructor (hire_first h) (hire_last h) (hire_dept h)
              (hire_salary h) (hire_exp h) st with
      | (Returned e, st') => e :: hire_all hs' st'
      | (Thrown _, st') => hire_all hs' st'
      end
  end.

(** The PIN a call is made with, for the calls that take one (the old PIN,
    for [changePin]). *)
Definition pin_argument (c : call) : option string :=
  match c with
  | call_getAccountHolder | call_getMaskedAccountNumber => None
  | call_getBalance p | call_deposit _ p | call_withdraw _ p
  | call_changePin p _ | call_deactivateAccount p | call_activateAccount p =>
      Some p
  end.

(** What the constructor checks of its string arguments. *)
Definition well_formed (a : BankAccount) : Prop :=
  accountHolder a <> EmptyString /\
  (10 <= String.length (accountNumber a))%nat /\
  String.length (pin a) = 4%nat.

End BasicConcepts.

(** ** The decorator chains (design_patterns/adapter_decorator.hpp) *)

Module Decorator.
Import Cxx.
#[local] Open Scope string_scope.

(** The classes under [class Coffee]. A decorator owns the object it wraps
    ([std::unique_ptr<Coffee>], moved in at construction): the wrapped
    object is a component of the wrapper. *)
Inductive Coffee : Type :=
| SimpleCoffee
| Espresso
| CoffeeDecorator (coffee : Coffee)
| MilkDecorator (coffee : Coffee)
| SugarDecorator (coffee : Coffee)
| VanillaDecorator (coffee : Coffee)
| WhippedCreamDecorator (coffee : Coffee).

(** [virtual std::string getDescription() const] *)
Fixpoint getDescription (c : Coffee) : string :=
  match c with
  | SimpleCoffee => "Simple Coffee"
  | Espresso => "Espresso"
  | CoffeeDecorator coffee => getDescription coffee
  | MilkDecorator coffee => getDescription coffee ++ " + Milk"
  | SugarDecorator coffee => getDescription coffee ++ " + Sugar"
  | VanillaDecorator coffee => getDescription coffee ++ " + Vanilla"
  | WhippedCreamDecorator coffee => getDescription coffee ++ " + Whipped Cream"
  end.

(** [virtual double getCost() const] *)
Fixpoint getCost (c : Coffee) : float :=
  match c with
  | SimpleCoffee => 2.0
  | Espresso => 3.0
  | CoffeeDecorator coffee => getCost coffee
  | MilkDecorator coffee => getCost coffee + 0.5
  | SugarDecorator coffee => getCost coffee + 0.2
  | VanillaDecorator coffee => getCost coffee + 0.7
  | WhippedCreamDecorator coffee => getCost coffee + 1.0
  end%float.

(** [virtual void prepare() const], on [std::cout]. *)
Fixpoint prepare (c : Coffee) (cout : ostream) : ostream :=
  match c with
  | SimpleCoffee =>
      cout ++ [OStr "☕ Brewing simple black coffee..."; OEndl]
  | Espresso =>
      cout ++ [OStr "☕ Preparing rich espresso shot..."; OEndl]
  | CoffeeDecorator coffee => prepare coffee cout
  | MilkDecorator coffee =>
      prepare coffee cout ++ [OStr "🥛 Adding creamy steamed milk..."; OEndl]
  | SugarDecorator coffee =>
      prepare coffee cout ++ [OStr "🍯 Adding sweet sugar..."; OEndl]
  | VanillaDecorator coffee =>
      prepare coffee cout
        ++ [OStr "🌟 Adding aromatic vanilla flavor..."; OEndl]
  | WhippedCreamDecorator coffee =>
      prepare coffee cout
        ++ [OStr "🍦 Topping with fluffy whipped cream..."; OEndl]
  end%list.

(** The four concrete decorators, by what each one adds. *)
Inductive decorator : Type := Milk | Sugar | Vanilla | WhippedCream.

(** [std::make_unique<D>(std::move(c))] *)
Definition wrap (d : decorator) (c : Coffee) : Coffee :=
  match d with
  | Milk => MilkDecorator c
  | Sugar => SugarDecorator c
  | Vanilla => VanillaDecorator c
  | WhippedCream => WhippedCreamDecorator c
  end.

Definition suffix (d : decorator) : string :=
  match d with
  | Milk => " + Milk"
  | Sugar => " + Sugar"
  | Vanilla => " + Vanilla"
  | WhippedCream => " + Whipped Cream"
  end.

Definition delta (d : decorator) : float :=
  match d with
  | Milk => 0.5
  | Sugar => 0.2
  | Vanilla => 0.7
  | WhippedCream => 1.0
  end%float.

Definition effect (d : decorator) : list out_item :=
  match d with
  | Milk => [OStr "🥛 Adding creamy steamed milk..."; OEndl]
  | Sugar => [OStr "🍯 Adding sweet sugar..."; OEndl]
  | Vanilla => [OStr "🌟 Adding aromatic vanilla flavor..."; OEndl]
  | WhippedCream => [OStr "🍦 Topping with fluffy whipped cream..."; OEndl]
  end.

(** A chain: [base] wrapped by the decorators of [ds], the first one
    innermost, as [coffee = std::make_unique<D>(std::move(coffee))] repeated. *)
Definition decorate (base : Coffee) (ds : list decorator) : Coffee :=
  fold_left (fun c d => wrap d c) ds base.

(** The object at the heart of a chain: the one wrapped first. *)
Fixpoint innermost (c : Coffee) : Coffee :=
  match c with
  | SimpleCoffee => SimpleCoffee
  | Espresso => Espresso
  | CoffeeDecorator coffee
  | MilkDecorator coffee
  | SugarDecorator coffee
  | VanillaDecorator coffee
  | WhippedCreamDecorator coffee => innermost coffee
  end.

(** *** The text processors *)

(** The value of a [char] that holds a 7-bit character, and the conversion
    [static_cast<char>] of an [int]. *)
Definition code (c : ascii) : Z := Z.of_N (N_of_ascii c).
Definition char_of_int (z : Z) : ascii := ascii_of_N (Z.to_N (z mod 256)).

(** [std::isupper], [std::islower], [std::isalpha] and [::toupper] in the
    "C" locale, the one a program that never calls [setlocale] runs in. *)
Definition isupper (c : ascii) : bool :=
  ((65 <=? code c) && (code c <=? 90))%Z.
Definition islower (c : ascii) : bool :=
  ((97 <=? code c) && (code c <=? 122))%Z.
Definition isalpha (c : ascii) : bool := isupper c || islower c.
Definition toupper (c : ascii) : ascii :=
  if islower c then char_of_int (code c - 32)%Z else c.

(** [std::transform(s.begin(), s.end(), s.begin(), f)] *)
Fixpoint transform (f : ascii -> ascii) (s : string) : string :=
  match s with
  | EmptyString => EmptyString
  | String c s' => String (f c) (transform f s')
  end.

(** The body of the loop of [EncryptionDecorator::process]; the sum
    [c - base + shift] is taken in [int], and [%] on [int] truncates towards
    zero ([Z.rem]). *)
Definition encrypt_char (shift : Z) (c : ascii) : ascii :=
  if isalpha c then
    let base := (if isupper c then 65 else 97)%Z in
    char_of_int (Z.rem (int_wrap (code c - base + shift)) 26 + base)%Z
  else c.

(** The loop of [CompressionDecorator::process], from a given [prevSpace]. *)
Fixpoint compress (prevSpace : bool) (s : string) : string :=
  match s with
  | EmptyString => EmptyString
  | String c s' =>
      if Ascii.eqb c " " then
        if negb prevSpace then String c (compress true s')
        else compress prevSpace s'
      else String c (compress false s')
  end.

(** [std::to_string(int)] *)
Definition to_string (z : Z) : string := NilZero.string_of_int (Z.to_int z).

(** The classes under [class TextProcessor]. *)
Inductive TextProcessor : Type :=
| PlainTextProcessor
| TextProcessorDecorator (processor : TextProcessor)
| UpperCaseDecorator (processor : TextProcessor)
| EncryptionDecorator (processor : TextProcessor) (shift : Z)
| CompressionDecorator (processor : TextProcessor).

(** [virtual std::string process(const std::string& text)] *)
Fixpoint process (p : TextProcessor) (text : string) : string :=
  match p with
  | PlainTextProcessor => text
  | TextProcessorDecorator processor => process processor text
  | UpperCaseDecorator processor =>
      let processed := process processor text in
      transform toupper processed
  | EncryptionDecorator processor shift =>
      let processed := process processor text in
      transform (encrypt_char shift) processed
  | CompressionDecorator processor =>
      let processed := process processor text in
      compress false processed
  end.

(** [virtual std::string getProcessingInfo() const] *)
Fixpoint getProcessingInfo (p : TextProcessor) : string :=
  match p with
  | PlainTextProcessor => "Plain Text"
  | TextProcessorDecorator processor => getProcessingInfo processor
  | UpperCaseDecorator processor =>
      getProcessingInfo processor ++ " -> UpperCase"
  | EncryptionDecorator processor shift =>
      getProcessingInfo processor ++ " -> Encrypted(shift="
        ++ to_string shift ++ ")"
  | CompressionDecorator processor =>
      getProcessingInfo processor ++ " -> Compressed"
  end.

(** The three concrete text decorators, by what each one adds. *)
Inductive text_decorator : Type :=
| UpperCase
| Encryption (shift : Z)
| Compression.

Definition text_wrap (d : text_decorator) (p : TextProcessor)
  : TextProcessor :=
  match d with
  | UpperCase => UpperCaseDecorator p
  | Encryption shift => EncryptionDecorator p shift
  | Compression => CompressionDecorator p
  end.

Definition text_effect (d : text_decorator) (processed : string) : string :=
  match d with
  | UpperCase => transform toupper processed
  | Encryption shift => transform (encrypt_char shift) processed
  | Compression => compress false processed
  end.

Definition text_decorate (base : TextProcessor) (ds : list text_decorator)
  : TextProcessor :=
  fold_left (fun p d => text_wrap d p) ds base.

(** *** Notions to state what the text processors do *)

Definition is_space (c : ascii) : bool := Ascii.eqb c " ".

Definition starts_with_space (s : string) : bool :=
  match s with
  | String c _ => is_space c
  | EmptyString => false
  end.

(** Two spaces in a row, somewhere in the string. *)
Fixpoint has_double_space (s : string) : bool :=
  match s with
  | EmptyString => false
  | String c s' => (is_space c && starts_with_space s') || has_double_space s'
  end.

(** The string with its spaces left out. *)
Fixpoint without_spaces (s : string) : string :=
  match s with
  | EmptyString => EmptyString
  | String c s' =>
      if is_space c then without_spaces s' else String c (without_spaces s')
  end.

(** A lower-case letter somewhere in the string. *)
Fixpoint has_lower (s : string) : bool :=
  match s with
  | EmptyString => false
  | String c s' => islower c || has_lower s'
  end.

(** The strings of a list, one after the other. *)
Fixpoint concat_all (l : list string) : string :=
  match l with
  | [] => EmptyString
  | s :: l' => s ++ concat_all l'
  end.

(** What a text decorator appends to the processing info. *)
Definition text_suffix (d : text_decorator) : string :=
  match d with
  | UpperCase => " -> UpperCase"
  | Encryption shift => " -> Encrypted(shift=" ++ to_string shift ++ ")"
  | Compression => " -> Compressed"
  end.

End Decorator.

(** ** The singleton holders (design_patterns/singleton.hpp) *)

Module Singleton.
Import Cxx.
#[local] Open Scope string_scope.

(** The data member of [class DatabaseConnection]. *)
Record DatabaseConnection : Type := mkDatabaseConnection {
  connection_string : string
}.

Inductive Environment : Type := DEVELOPMENT | TESTING | PRODUCTION.

(** The data members of [class ConfigManager]. *)
Record ConfigManager : Type := mkConfigManager {
  env : Environment;
  config_path : string
}.

(** The identity of an object: the address [new] gave it, or the storage of
    one of the two function-local statics. *)
Inductive ref : Type :=
| on_heap (a : positive)
| static_Logger
| static_ConfigManager.

(** The state of the process that the accessors read and write:
    the objects made with [new]; [DatabaseConnection::instance]
    ([None] is [nullptr]); whether the static [Logger] is constructed; the
    static [ConfigManager], once constructed; [std::cout]. *)
Record process : Type := mkProcess {
  heap : gmap positive DatabaseConnection;
  instance : option positive;
  Logger_constructed : bool;
  ConfigManager_static : option ConfigManager;
  cout : ostream
}.

(** The process as [main] finds it. *)
Definition start : process := mkProcess ∅ None false None [].

(** [static DatabaseConnection* getInstance(const std::string& conn_str)];
    [new] gives an address no live object has, and the constructor prints. *)
Definition DatabaseConnection_getInstance (conn_str : string)
  (p : process) : ref * process :=
  match instance p with
  | None =>
      let a := fresh (dom (heap p)) in
      (on_heap a,
       mkProcess (<[a := mkDatabaseConnection conn_str]> (heap p)) (Some a)
         (Logger_constructed p) (ConfigManager_static p)
         (cout p ++ [OStr "Database connection created to: "; OStr conn_str;
                     OEndl])%list)
  | Some a => (on_heap a, p)
  end.

(** [void DatabaseConnection::query(const std::string& sql)], called
    through a pointer. *)
Definition query (r : ref) (sql : string) (p : process) : process :=
  match r with
  | on_heap a =>
      match heap p !! a with
      | Some db =>
          mkProcess (heap p) (instance p) (Logger_constructed p)
            (ConfigManager_static p)
            (cout p ++ [OStr "Executing query on ";
                        OStr (connection_string db); OStr ": "; OStr sql;
                        OEndl])%list
      | None => p
      end
  | _ => p
  end.

(** [static Logger& Logger::getInstance()] *)
Definition Logger_getInstance (p : process) : ref * process :=
  (static_Logger,
   mkProcess (heap p) (instance p) true (ConfigManager_static p) (cout p)).

(** [void Logger::info(const std::string& message)], on the singleton. *)
Definition Logger_info (message : string) (p : process) : process :=
  mkProcess (heap p) (instance p) (Logger_constructed p)
    (ConfigManager_static p)
    (cout p ++ [OStr "[INFO]: "; OStr message; OEndl])%list.

(** [static ConfigManager& ConfigManager::getInstance()] *)
Definition ConfigManager_getInstance (p : process) : ref * process :=
  (static_ConfigManager,
   match ConfigManager_static p with
   | None =>
       mkProcess (heap p) (instance p) (Logger_constructed p)
         (Some (mkConfigManager DEVELOPMENT "config/dev.json")) (cout p)
   | Some _ => p
   end).

(** [void ConfigManager::setEnvironment(Environment new_env)], on the
    singleton. *)
Definition setEnvironment (new_env : Environment) (p : process) : process :=
  match ConfigManager_static p with
  | Some _ =>
      mkProcess (heap p) (instance p) (Logger_constructed p)
        (Some (mkConfigManager new_env
                 match new_env with
                 | DEVELOPMENT => "config/dev.json"
                 | TESTING => "config/test.json"
                 | PRODUCTION => "config/prod.json"
                 end))
        (cout p)
  | None => p
  end.

(** What a client of the header can do, one step at a time. *)
Inductive step : Type :=
| call_DatabaseConnection_getInstance (conn_str : string)
| call_query (r : ref) (sql : string)
| call_Logger_getInstance
| call_Logger_info (message : string)
| call_ConfigManager_getInstance
| call_setEnvironment (new_env : Environment).

(** One step: the reference an accessor returns, if the step is one, and
    the process after it. *)
Definition exec (st : step) (p : process) : option ref * process :=
  match st with
  | call_DatabaseConnection_getInstance conn_str =>
      let '(r, p') := DatabaseConnection_getInstance conn_str p in
      (Some r, p')
  | call_query r sql => (None, query r sql p)
  | call_Logger_getInstance =>
      let '(r, p') := Logger_getInstance p in (Some r, p')
  | call_Logger_info message => (None, Logger_info message p)
  | call_ConfigManager_getInstance =>
      let '(r, p') := ConfigManager_getInstance p in (Some r, p')
  | call_setEnvironment new_env => (None, setEnvironment new_env p)
  end.

Fixpoint run (sts : list step) (p : process) : process :=
  match sts with
  | [] => p
  | st :: sts' => run sts' (snd (exec st p))
  end.

(** The config file of an environment: the [switch] of [setEnvironment]. *)
Definition path_of (e : Environment) : string :=
  match e with
  | DEVELOPMENT => "config/dev.json"
  | TESTING => "config/test.json"
  | PRODUCTION => "config/prod.json"
  end.

(** The connection string of the first [DatabaseConnection::getInstance]
    call among the steps, if there is one. *)
Fixpoint first_connection (sts : list step) : option string :=
  match sts with
  | [] => None
  | call_DatabaseConnection_getInstance conn_str :: _ => Some conn_str
  | _ :: sts' => first_connection sts'
  end.

Definition is_setEnvironment (st : step) : bool :=
  match st with
  | call_setEnvironment _ => true
  | _ => false
  end.

(** A reference denotes a live object of the process: an object [new]
    made and the heap holds, or a function-local static that has been
    constructed. *)
Definition live (r : ref) (p : process) : bool :=
  match r with
  | on_heap a =>
      match heap p !! a with Some _ => true | None => false end
  | static_Logger => Logger_constructed p
  | static_ConfigManager =>
      match ConfigManager_static p with Some _ => true | None => false end
  end.

(** [DatabaseConnection::instance] is null or points to an object on the
    heap. The pointer is private and only [getInstance] assigns it. *)
Definition instance_ok (p : process) : bool :=
  match instance p with
  | Some a => live (on_heap a) p
  | None => true
  end.

End Singleton.

(** ** The observers (design_patterns/observer.hpp) *)

Module ObserverPattern.
Import Cxx.
#[local] Open Scope string_scope.
#[local] Open Scope list_scope.

(** The classes under [class Observer], each with its one data member. *)
Inductive Observer : Type :=
| EmailNotifier (email : string)
| SMSNotifier (phoneNumber : string)
| PushNotifier (deviceId : string)
| NewsChannel (channelName : string)
| StockDisplay (displayName : string).

(** [virtual void update(const std::string& message)]: what it prints. *)
Definition update (o : Observer) (message : string) : list out_item :=
  match o with
  | EmailNotifier email =>
      [OStr "📧 Email sent to "; OStr email; OStr ": "; OStr message; OEndl]
  | SMSNotifier phoneNumber =>
      [OStr "📱 SMS sent to "; OStr phoneNumber; OStr ": "; OStr message;
       OEndl]
  | PushNotifier deviceId =>
      [OStr "🔔 Push notification to "; OStr deviceId; OStr ": ";
       OStr message; OEndl]
  | NewsChannel channelName =>
      [OStr "📺 "; OStr channelName; OStr " broadcasting: "; OStr message;
       OEndl]
  | StockDisplay displayName =>
      [OStr "📊 "; OStr displayName; OStr " updated: "; OStr message; OEndl]
  end.

(** [virtual std::string getName() const] *)
Definition getName (o : Observer) : string :=
  match o with
  | EmailNotifier email => ("EmailNotifier(" ++ email ++ ")")%string
  | SMSNotifier phoneNumber => ("SMSNotifier(" ++ phoneNumber ++ ")")%string
  | PushNotifier deviceId => ("PushNotifier(" ++ deviceId ++ ")")%string
  | NewsChannel channelName => channelName
  | StockDisplay displayName => displayName
  end.

(** [operator<<] on a [size_t] inserts its decimal digits. *)
Definition OSize (n : nat) : out_item :=
  OStr (NilZero.string_of_uint (Nat.to_uint n)).

(** The data members of [class Subject]; an [Observer*] is an address. *)
Record Subject : Type := mkSubject {
  observers : list positive;
  state : string
}.

(** A member function of [Subject] runs on the object and [std::cout]. *)
Record world : Type := mkWorld {
  subject : Subject;
  cout : ostream
}.

(** [std::find(observers.begin(), observers.end(), observer)]: the place
    of the first element equal to [observer], if there is one. *)
Fixpoint find (observer : positive) (l : list positive) : option nat :=
  match l with
  | [] => None
  | x :: l' =>
      if Pos.eqb x observer then Some O
      else match find observer l' with
           | Some i => Some (S i)
           | None => None
           end
  end.

(** [v.erase(v.begin() + i)] *)
Fixpoint erase {A : Type} (i : nat) (l : list A) : list A :=
  match l, i with
  | [], _ => []
  | _ :: l', O => l'
  | x :: l', S i' => x :: erase i' l'
  end.

Section Pointers.

(** The observer that lives at an address. *)
Variable deref : positive -> Observer.

(** [void attach(Observer* observer)] *)
Definition attach (observer : positive) (w : world) : world :=
  mkWorld
    (mkSubject (observers (subject w) ++ [observer]) (state (subject w)))
    (cout w ++ [OStr "Observer "; OStr (getName (deref observer));
                OStr " attached"; OEndl]).

(** [void detach(Observer* observer)] *)
Definition detach (observer : positive) (w : world) : world :=
  match find observer (observers (subject w)) with
  | Some it =>
      mkWorld
        (mkSubject (erase it (observers (subject w))) (state (subject w)))
        (cout w ++ [OStr "Observer "; OStr (getName (deref observer));
                    OStr " detached"; OEndl])
  | None => w
  end.

(** The loop of [notify]: [observer->update(state)] for each one. *)
Fixpoint notify_each (l : list positive) (state : string) (out : ostream)
  : ostream :=
  match l with
  | [] => out
  | observer :: l' =>
      notify_each l' state (out ++ update (deref observer) state)
  end.

(** [void notify()] *)
Definition notify (w : world) : world :=
  mkWorld (subject w)
    (notify_each (observers (subject w)) (state (subject w))
       (cout w ++ [OStr "Notifying ";
                   OSize (List.length (observers (subject w)));
                   OStr " observers..."; OEndl])).

(** [void setState(const std::string& newState)] *)
Definition setState (newState : string) (w : world) : world :=
  notify
    (mkWorld (mkSubject (observers (subject w)) newState)
       (cout w ++ [OStr "Subject state changed to: "; OStr newState; OEndl])).

End Pointers.

(** *** StockMarket *)

(** [struct StockPrice] *)
Record StockPrice : Type := mkStockPrice {
  symbol : string;
  price : float;
  change : float
}.

(** The loop of [updateStock] over [stocks]: the vector after it when a
    stock with the symbol was found, [None] when [found] stays false. *)
Fixpoint update_found (sym : string) (newPrice : float)
  (stocks : list StockPrice) : option (list StockPrice) :=
  match stocks with
  | [] => None
  | stock :: rest =>
      if String.eqb (symbol stock) sym then
        let oldPrice := price stock in
        Some (mkStockPrice (symbol stock) newPrice
                (PrimFloat.sub newPrice oldPrice) :: rest)
      else
        match update_found sym newPrice rest with
        | Some rest' => Some (stock :: rest')
        | None => None
        end
  end.

(** The [stocks] of a [StockMarket] after [updateStock(symbol, newPrice)]. *)
Definition updateStock_stocks (sym : string) (newPrice : float)
  (stocks : list StockPrice) : list StockPrice :=
  match update_found sym newPrice stocks with
  | Some stocks' => stocks'
  | None => stocks ++ [mkStockPrice sym newPrice 0]
  end.

(** The first stock with a symbol, as the loops of the class look for it. *)
Fixpoint first_stock (sym : string) (stocks : list StockPrice)
  : option StockPrice :=
  match stocks with
  | [] => None
  | stock :: rest =>
      if String.eqb (symbol stock) sym then Some stock
      else first_stock sym rest
  end.

Section Markets.

Variable deref : positive -> Observer.

(** [std::to_string(double)]: its formatting is not modelled. *)
Variable double_to_string : float -> string.

(** [class StockMarket : public Subject] *)
Record StockMarket : Type := mkStockMarket {
  market_subject : world;
  stocks : list StockPrice
}.

(** [void updateStock(const std::string& symbol, double newPrice)] *)
Definition updateStock (sym : string) (newPrice : float) (m : StockMarket)
  : StockMarket :=
  mkStockMarket
    (setState deref
       (sym ++ " price updated to $" ++ double_to_string newPrice)%string
       (market_subject m))
    (updateStock_stocks sym newPrice (stocks m)).

End Markets.

(** *** ModernSubject<T> *)

Section Modern.

Variable T : Type.

(** The data members: the callbacks ([std::function<void(const T&)>], each
    one by what it prints for a value) and the data. *)
Record ModernSubject : Type := mkModernSubject {
  callbacks : list (T -> list out_item);
  data : T
}.

(** [void subscribe(std::function<void(const T&)> observer)] *)
Definition subscribe (observer : T -> list out_item) (m : ModernSubject)
  : ModernSubject :=
  mkModernSubject (callbacks m ++ [observer]) (data m).

(** [void unsubscribe(size_t index)] *)
Definition unsubscribe (index : nat) (m : ModernSubject) : ModernSubject :=
  if (index <? List.length (callbacks m))%nat
  then mkModernSubject (erase index (callbacks m)) (data m)
  else m.

(** [void setData(const T& newData)], with [notify()]: the subject after
    it and what the callbacks print. *)
Definition setData (newData : T) (m : ModernSubject)
  : ModernSubject * list out_item :=
  (mkModernSubject (callbacks m) newData,
   flat_map (fun observer => observer newData) (callbacks m)).

End Modern.

(** *** EventSystem *)

Inductive EventType : Type :=
| USER_LOGIN
| USER_LOGOUT
| ORDER_PLACED
| PAYMENT_SUCCESS.

Definition EventType_eqb (a b : EventType) : bool :=
  match a, b with
  | USER_LOGIN, USER_LOGIN | USER_LOGOUT, USER_LOGOUT
  | ORDER_PLACED, ORDER_PLACED | PAYMENT_SUCCESS, PAYMENT_SUCCESS => true
  | _, _ => false
  end.

(** The [std::map] from event type to listeners: the listeners of a type,
    none for a type that has no entry. *)
Definition EventSystem : Type := EventType -> list (string -> list out_item).

Definition no_listeners : EventSystem := fun _ => [].

(** [void addEventListener(EventType type, listener)] *)
Definition addEventListener (type : EventType)
  (listener : string -> list out_item) (es : EventSystem) : EventSystem :=
  fun t => if EventType_eqb t type then es t ++ [listener] else es t.

Definition eventName (type : EventType) : string :=
  match type with
  | USER_LOGIN => "USER_LOGIN"
  | USER_LOGOUT => "USER_LOGOUT"
  | ORDER_PLACED => "ORDER_PLACED"
  | PAYMENT_SUCCESS => "PAYMENT_SUCCESS"
  end.

(** [void triggerEvent(EventType type, const std::string& data)]: what it
    prints, the listeners' output included. *)
Definition triggerEvent (type : EventType) (data : string) (es : EventSystem)
  : list out_item :=
  [OStr "🎯 Event triggered: "; OStr (eventName type);
   OStr " with data: "; OStr data; OEndl]
  ++ flat_map (fun listener => listener data) (es type).

End ObserverPattern.

(** ** The factories (design_patterns/factory.hpp) *)

Module Factory.
Import Cxx.
#[local] Open Scope string_scope.

(** The classes under [class Shape], each with its data members. *)
Inductive Shape : Type :=
| Circle (radius : float)
| Rectangle (width height : float)
| Triangle (base height : float).

(** [virtual double getArea() const] *)
Definition getArea (s : Shape) : float :=
  match s with
  | Circle radius => 3.14159 * radius * radius
  | Rectangle width height => width * height
  | Triangle base height => 0.5 * base * height
  end%float.

(** [virtual std::string getType() const] *)
Definition getType (s : Shape) : string :=
  match s with
  | Circle _ => "Circle"
  | Rectangle _ _ => "Rectangle"
  | Triangle _ _ => "Triangle"
  end.

(** [enum class ShapeType { CIRCLE, RECTANGLE, TRIANGLE }]: the underlying
    type is [int], the enumerators are 0, 1 and 2, and a value of the type
    can be any [int] ([static_cast<ShapeType>(7)] is one). *)
Definition ShapeType : Type := Z.
Definition CIRCLE : ShapeType := 0.
Definition RECTANGLE : ShapeType := 1.
Definition TRIANGLE : ShapeType := 2.

(** [ShapeFactory::createShape(ShapeType type, double param1, double
    param2)]; a [std::unique_ptr<Shape>] is the shape it owns, or [None] for
    [nullptr]. The last branch is the [default:] of the [switch]. *)
Definition createShape (type : ShapeType) (param1 param2 : float)
  : option Shape :=
  if (type =? CIRCLE)%Z then Some (Circle param1)
  else if (type =? RECTANGLE)%Z then Some (Rectangle param1 param2)
  else if (type =? TRIANGLE)%Z then Some (Triangle param1 param2)
  else None.

(** [ShapeFactory::createShape(const std::string& type, double param1,
    double param2)] *)
Definition createShape_by_name (type : string) (param1 param2 : float)
  : option Shape :=
  if String.eqb type "circle" then Some (Circle param1)
  else if String.eqb type "rectangle" then Some (Rectangle param1 param2)
  else if String.eqb type "triangle" then Some (Triangle param1 param2)
  else None.

(** The classes derived from [Shape], as the template argument [T] of
    [AdvancedShapeFactory::registerShape<T>]. *)
Inductive shape_class : Type :=
| Circle_class
| Rectangle_class
| Triangle_class.

(** The creator [registerShape<T>] stores, fixed by [T]: the lambda makes
    a [T] from [p1] alone for [Circle] (the [if constexpr]), from [p1] and
    [p2] otherwise. *)
Definition creator (T : shape_class) (p1 p2 : float) : option Shape :=
  match T with
  | Circle_class => Some (Circle p1)
  | Rectangle_class => Some (Rectangle p1 p2)
  | Triangle_class => Some (Triangle p1 p2)
  end.

(** [AdvancedShapeFactory::creators], each creator given by its class, and
    [registerShape<T>(name)]: [creators[name] = ...]. *)
Definition registerShape (T : shape_class) (name : string)
  (creators : gmap string shape_class) : gmap string shape_class :=
  <[name := T]> creators.

(** [AdvancedShapeFactory::create(const std::string& type, double param1,
    double param2)] *)
Definition create (creators : gmap string shape_class) (type : string)
  (param1 param2 : float) : option Shape :=
  match creators !! type with
  | Some T => creator T param1 param2
  | None => None
  end.

(** The enumerator and the name [ShapeFactory::createShape] knows a class
    under. *)
Definition enumerator (T : shape_class) : ShapeType :=
  match T with
  | Circle_class => CIRCLE
  | Rectangle_class => RECTANGLE
  | Triangle_class => TRIANGLE
  end.

Definition name_of (T : shape_class) : string :=
  match T with
  | Circle_class => "circle"
  | Rectangle_class => "rectangle"
  | Triangle_class => "triangle"
  end.

(** The class of a shape. *)
Definition class_of (s : Shape) : shape_class :=
  match s with
  | Circle _ => Circle_class
  | Rectangle _ _ => Rectangle_class
  | Triangle _ _ => Triangle_class
  end.

End Factory.

(** ** Facts on [int] *)

Module IntFacts.
Import Cxx.

(** A sum that is an [int] is left as it is. *)
Lemma int_wrap_id (z : Z) : INT_MIN <= z <= INT_MAX -> int_wrap z = z.
Proof.
  unfold int_wrap, INT_MIN, INT_MAX. intros H.
  rewrite Z.mod_small by lia. lia.
Qed.

End IntFacts.

(** ** Facts on doubles, through their IEEE-754 specification *)

Module DoubleFacts.
Import Cxx.

Lemma Prim2SF_zero : Prim2SF 0%float = S754_zero false.
Proof. reflexivity. Qed.

Lemma digits2_pos_bounds (m : positive) :
  2 ^ (Z.pos (digits2_pos m) - 1) <= Z.pos m < 2 ^ Z.pos (digits2_pos m).
Proof.
  induction m as [m IH|m IH|]; cbn [digits2_pos].
  - rewrite Pos2Z.inj_succ.
    replace (Z.succ (Z.pos (digits2_pos m)) - 1)
      with (Z.succ (Z.pos (digits2_pos m) - 1)) by lia.
    rewrite !Z.pow_succ_r by lia. lia.
  - rewrite Pos2Z.inj_succ.
    replace (Z.succ (Z.pos (digits2_pos m)) - 1)
      with (Z.succ (Z.pos (digits2_pos m) - 1)) by lia.
    rewrite !Z.pow_succ_r by lia. lia.
  - cbn. lia.
Qed.

Lemma iter_xO_mul (d m : positive) :
  Z.pos (Pos.iter xO m d) = Z.pos m * 2 ^ Z.pos d.
Proof.
  revert m. induction d as [|d IH] using Pos.peano_ind; intros m.
  - cbn. lia.
  - rewrite Pos.iter_succ, Pos2Z.inj_xO, IH, Pos2Z.inj_succ, Z.pow_succ_r
      by lia.
    lia.
Qed.

Lemma shl_align_ge (m : positive) (e e' : Z) :
  e' <= e ->
  Z.pos (fst (shl_align m e e')) = Z.pos m * 2 ^ (e - e').
Proof.
  intros H. unfold shl_align.
  destruct (e' - e) as [|d|d] eqn:E; try lia.
  - replace (e - e') with 0 by lia. cbn [fst]. lia.
  - cbn [fst]. rewrite iter_xO_mul. f_equal. f_equal. lia.
Qed.

(** Rounding keeps the sign it is given. *)
Lemma binary_round_aux_sign prec emax (s : bool) m e l :
  match binary_round_aux prec emax s m e l with
  | S754_zero s' | S754_infinity s' | S754_finite s' _ _ => s' = s
  | S754_nan => True
  end.
Proof.
  unfold binary_round_aux.
  destruct (shr_fexp prec emax m e l) as [mrs' e'].
  destruct (shr_fexp prec emax _ e' loc_Exact) as [mrs'' e''].
  destruct (shr_m mrs''); auto.
  destruct (_ <=? _); auto.
Qed.

Lemma binary_round_sign prec emax (s : bool) m e :
  match binary_round prec emax s m e with
  | S754_zero s' | S754_infinity s' | S754_finite s' _ _ => s' = s
  | S754_nan => True
  end.
Proof.
  unfold binary_round.
  destruct (shl_align m e _) as [mz ez].
  apply binary_round_aux_sign.
Qed.

Lemma binary_normalize_not_negative prec emax m e :
  0 <= m -> spec_negative (binary_normalize prec emax m e false) = false.
Proof.
  intros Hm. unfold binary_normalize.
  destruct m as [|p|p]; [reflexivity| |lia].
  pose proof (binary_round_sign prec emax false p e) as H.
  destruct (binary_round prec emax false p e); subst; reflexivity.
Qed.

(** A valid binary64 mantissa has at most 53 bits, and exactly 53 above the
    least exponent. *)
Lemma bounded_digits m e :
  SpecFloat.bounded prec emax m e = true ->
  Z.pos (digits2_pos m) <= prec /\ SpecFloat.emin prec emax <= e /\
  (SpecFloat.emin prec emax < e -> Z.pos (digits2_pos m) = prec).
Proof.
  unfold SpecFloat.bounded, SpecFloat.canonical_mantissa, SpecFloat.fexp,
    SpecFloat.emin, prec, emax.
  intros H. apply andb_prop in H as [H _]. apply Z.eqb_eq in H.
  lia.
Qed.

Lemma aligned_ge mx ex my ey :
  SpecFloat.bounded prec emax mx ex = true ->
  SpecFloat.bounded prec emax my ey = true ->
  ey < ex ->
  Z.pos my <= Z.pos (fst (shl_align mx ex (Z.min ex ey))).
Proof.
  intros Hx Hy Hlt.
  apply bounded_digits in Hx as (_ & _ & Hx).
  apply bounded_digits in Hy as (Hy & Hey & _).
  rewrite shl_align_ge by lia.
  rewrite Z.min_r by lia.
  pose proof (digits2_pos_bounds mx) as [Bx _].
  pose proof (digits2_pos_bounds my) as [_ By].
  rewrite Hx in Bx by lia.
  assert (Z.pos my < 2 ^ prec).
  { eapply Z.lt_le_trans; [exact By|]. apply Z.pow_le_mono_r; lia. }
  assert (2 ^ 1 <= 2 ^ (ex - ey)) by (apply Z.pow_le_mono_r; lia).
  assert (2 ^ prec = 2 ^ (prec - 1) * 2 ^ 1) by reflexivity.
  nia.
Qed.

(** On valid binary64 values: [x - y] is not negative when [x] is not
    negative, [y <= 0] is false and [x < y] is false. *)
Lemma SFsub_not_negative (x y : spec_float) :
  valid_binary x = true -> valid_binary y = true ->
  spec_negative x = false ->
  SFleb y (S754_zero false) = false ->
  SFltb x y = false ->
  spec_negative (SF64sub x y) = false.
Proof.
  intros Vx Vy Hx Hy Hxy.
  destruct x as [sx|sx| |sx mx ex], y as [sy|sy| |sy my ey];
    try destruct sx; try destruct sy;
    try discriminate; try reflexivity.
  cbn [SpecFloat.valid_binary] in Vx, Vy.
  unfold SF64sub. cbn [SFsub cond_Zopp].
  apply binary_normalize_not_negative.
  unfold SFltb, SFcompare in Hxy.
  destruct (Z.compare_spec ex ey) as [E|E|E]; [|discriminate|].
  - subst ey. rewrite Z.min_id, !shl_align_ge by lia.
    rewrite Z.sub_diag, Z.pow_0_r, !Z.mul_1_r.
    rewrite Pos.compare_cont_spec in Hxy. cbn [Pos.switch_Eq] in Hxy.
    destruct (Pos.compare_spec mx my); try discriminate; lia.
  - pose proof (aligned_ge mx ex my ey Vx Vy E).
    rewrite (shl_align_ge my) by lia.
    rewrite Z.min_r, Z.sub_diag, Z.pow_0_r, Z.mul_1_r by lia.
    rewrite Z.min_r in H by lia. lia.
Qed.

Lemma SFadd_not_negative (x y : spec_float) :
  spec_negative x = false ->
  SFleb y (S754_zero false) = false ->
  spec_negative (SF64add x y) = false.
Proof.
  intros Hx Hy.
  destruct x as [sx|sx| |sx mx ex], y as [sy|sy| |sy my ey];
    try destruct sx; try destruct sy;
    try discriminate; try reflexivity.
  unfold SF64add. cbn [SFadd cond_Zopp].
  apply binary_normalize_not_negative. lia.
Qed.

Lemma SFltb_positive (x y : spec_float) :
  spec_negative x = false -> SFltb x y = true ->
  SFleb y (S754_zero false) = false.
Proof.
  intros Hx Hxy.
  destruct x as [sx|sx| |sx mx ex], y as [sy|sy| |sy my ey];
    try destruct sx; try destruct sy;
    try discriminate; try reflexivity.
Qed.

Lemma negative_spec (d : float) :
  BasicConcepts.negative d = spec_negative (Prim2SF d).
Proof. unfold BasicConcepts.negative. now rewrite FloatAxioms.ltb_spec. Qed.

(** [x - y] is not negative when [y > x] is false, for [x] not negative and
    [y <= 0] false. *)
Lemma sub_not_negative (x y : float) :
  BasicConcepts.negative x = false -> PrimFloat.leb y 0 = false ->
  Cxx.dgt y x = false ->
  BasicConcepts.negative (x - y) = false.
Proof.
  unfold Cxx.dgt.
  rewrite !negative_spec, FloatAxioms.leb_spec, FloatAxioms.ltb_spec,
    FloatAxioms.sub_spec.
  apply SFsub_not_negative; apply Prim2SF_valid.
Qed.

Lemma add_not_negative (x y : float) :
  BasicConcepts.negative x = false -> PrimFloat.leb y 0 = false ->
  BasicConcepts.negative (x + y) = false.
Proof.
  rewrite !negative_spec, FloatAxioms.leb_spec, FloatAxioms.add_spec.
  apply SFadd_not_negative.
Qed.

(** What exceeds a balance that is not negative is positive. *)
Lemma dgt_positive (x y : float) :
  BasicConcepts.negative x = false -> Cxx.dgt y x = true ->
  PrimFloat.leb y 0 = false.
Proof.
  unfold Cxx.dgt.
  rewrite negative_spec, FloatAxioms.leb_spec, FloatAxioms.ltb_spec.
  apply SFltb_positive.
Qed.

(** Not negative is: at least zero, or not a number. *)
Lemma not_negative_iff (x : float) :
  BasicConcepts.negative x = false <->
  PrimFloat.leb 0 x = true \/ PrimFloat.is_nan x = true.
Proof.
  unfold PrimFloat.is_nan.
  rewrite negative_spec, FloatAxioms.leb_spec, FloatAxioms.eqb_spec.
  change (Prim2SF 0) with (S754_zero false).
  destruct (Prim2SF x) as [s|s| |s m e]; try destruct s; cbn;
    try rewrite Z.compare_refl, Pos.compare_cont_refl;
    intuition discriminate.
Qed.

Lemma shr_1_nonneg (mrs : shr_record) :
  0 <= shr_m mrs -> 0 <= shr_m (shr_1 mrs).
Proof.
  destruct mrs as [m r s]. cbn [shr_m].
  destruct m as [|[p|p|]|p]; cbn; lia.
Qed.

Lemma iter_pos_shr_1_nonneg (p : positive) :
  forall mrs, 0 <= shr_m mrs -> 0 <= shr_m (SpecFloat.iter_pos shr_1 p mrs).
Proof.
  induction p as [p IH|p IH|]; intros mrs H; cbn [SpecFloat.iter_pos].
  - now apply IH, IH, shr_1_nonneg.
  - now apply IH, IH.
  - now apply shr_1_nonneg.
Qed.

Lemma shr_fexp_nonneg prec emax m e l :
  0 <= m -> 0 <= shr_m (fst (shr_fexp prec emax m e l)).
Proof.
  intros H. unfold shr_fexp, shr.
  assert (0 <= shr_m (shr_record_of_loc m l)) as H0
    by (destruct l as [|[]]; exact H).
  destruct (fexp prec emax (Zdigits2 m + e) - e); cbn [fst]; try exact H0.
  now apply iter_pos_shr_1_nonneg.
Qed.

Lemma round_nearest_even_nonneg m l : 0 <= m -> 0 <= round_nearest_even m l.
Proof.
  intros H. unfold round_nearest_even.
  destruct l as [|[]]; try destruct (Z.even m); lia.
Qed.

Lemma binary_round_aux_at_least_zero prec emax m e l :
  0 <= m ->
  SFleb (S754_zero false) (binary_round_aux prec emax false m e l) = true.
Proof.
  intros H. unfold binary_round_aux.
  pose proof (shr_fexp_nonneg prec emax m e l H) as H1.
  destruct (shr_fexp prec emax m e l) as [mrs' e']. cbn [fst] in H1.
  pose proof (shr_fexp_nonneg prec emax _ e' loc_Exact
                (round_nearest_even_nonneg _ (loc_of_shr_record mrs') H1))
    as H2.
  destruct (shr_fexp prec emax _ e' loc_Exact) as [mrs'' e''].
  cbn [fst] in H2.
  destruct (shr_m mrs'') as [|p|p]; [reflexivity | | lia].
  now destruct (e'' <=? emax - prec).
Qed.

Lemma binary_normalize_at_least_zero prec emax m e :
  0 <= m ->
  SFleb (S754_zero false) (binary_normalize prec emax m e false) = true.
Proof.
  intros H. unfold binary_normalize.
  destruct m as [|p|p]; [reflexivity | | lia].
  unfold binary_round. destruct (shl_align p e _) as [mz ez].
  now apply binary_round_aux_at_least_zero.
Qed.

(** On binary64 values: [x + y] is at least zero when [x] is, [y <= 0] is
    false and [y] is a number. *)
Lemma SFadd_at_least_zero (x y : spec_float) :
  SFleb (S754_zero false) x = true ->
  SFleb y (S754_zero false) = false -> y <> S754_nan ->
  SFleb (S754_zero false) (SF64add x y) = true.
Proof.
  intros Hx Hy Hn.
  destruct x as [sx|sx| |sx mx ex], y as [sy|sy| |sy my ey];
    try destruct sx; try destruct sy;
    try discriminate; try reflexivity; try congruence.
  unfold SF64add. cbn [SFadd cond_Zopp].
  apply binary_normalize_at_least_zero. lia.
Qed.

(** On valid binary64 values: [x - y] is at least zero when [x] is,
    [y <= 0] is false, [x < y] is false and [y] is finite. *)
Lemma SFsub_at_least_zero (x y : spec_float) :
  valid_binary x = true -> valid_binary y = true ->
  SFleb (S754_zero false) x = true ->
  SFleb y (S754_zero false) = false ->
  SFltb x y = false ->
  y <> S754_nan -> (forall s : bool, y <> S754_infinity s) ->
  SFleb (S754_zero false) (SF64sub x y) = true.
Proof.
  intros Vx Vy Hx Hy Hxy Hn Hi.
  destruct x as [sx|sx| |sx mx ex], y as [sy|sy| |sy my ey];
    try destruct sx; try destruct sy;
    try discriminate; try reflexivity; try congruence;
    try (exfalso; eapply Hi; reflexivity).
  cbn [SpecFloat.valid_binary] in Vx, Vy.
  unfold SF64sub. cbn [SFsub cond_Zopp].
  apply binary_normalize_at_least_zero.
  unfold SFltb, SFcompare in Hxy.
  destruct (Z.compare_spec ex ey) as [E|E|E]; [|discriminate|].
  - subst ey. rewrite Z.min_id, !shl_align_ge by lia.
    rewrite Z.sub_diag, Z.pow_0_r, !Z.mul_1_r.
    rewrite Pos.compare_cont_spec in Hxy. cbn [Pos.switch_Eq] in Hxy.
    destruct (Pos.compare_spec mx my); try discriminate; lia.
  - pose proof (aligned_ge mx ex my ey Vx Vy E).
    rewrite (shl_align_ge my) by lia.
    rewrite Z.min_r, Z.sub_diag, Z.pow_0_r, Z.mul_1_r by lia.
    rewrite Z.min_r in H by lia. lia.
Qed.

Lemma is_nan_spec (x : float) :
  PrimFloat.is_nan x = false -> Prim2SF x <> S754_nan.
Proof.
  unfold PrimFloat.is_nan. rewrite FloatAxioms.eqb_spec.
  intros H E. rewrite E in H. discriminate.
Qed.

Lemma is_finite_spec (x : float) :
  PrimFloat.is_finite x = true ->
  Prim2SF x <> S754_nan /\ forall s : bool, Prim2SF x <> S754_infinity s.
Proof.
  unfold PrimFloat.is_finite, PrimFloat.is_nan, PrimFloat.is_infinity.
  rewrite !FloatAxioms.eqb_spec, FloatAxioms.abs_spec.
  intros H. split; [intros E | intros s E]; rewrite E in H;
    [|destruct s]; vm_compute in H; discriminate.
Qed.

(** [x + y] is non-negative when [x] is, [y <= 0] is false and [y] is a
    number. *)
Lemma add_non_negative (x y : float) :
  BasicConcepts.non_negative x = true -> PrimFloat.leb y 0 = false ->
  PrimFloat.is_nan y = false ->
  BasicConcepts.non_negative (x + y) = true.
Proof.
  unfold BasicConcepts.non_negative. intros Hx Hy Hn.
  apply is_nan_spec in Hn. revert Hx Hy.
  rewrite !FloatAxioms.leb_spec, FloatAxioms.add_spec.
  change (Prim2SF 0) with (S754_zero false).
  intros Hx Hy. now apply SFadd_at_least_zero.
Qed.

(** [x - y] is non-negative when [x] is, [y <= 0] is false, [y > x] is
    false and [y] is finite. *)
Lemma sub_non_negative (x y : float) :
  BasicConcepts.non_negative x = true -> PrimFloat.leb y 0 = false ->
  Cxx.dgt y x = false -> PrimFloat.is_finite y = true ->
  BasicConcepts.non_negative (x - y) = true.
Proof.
  unfold BasicConcepts.non_negative, Cxx.dgt. intros Hx Hy Hxy Hf.
  apply is_finite_spec in Hf as [Hn Hi]. revert Hx Hy Hxy.
  rewrite !FloatAxioms.leb_spec, FloatAxioms.ltb_spec, FloatAxioms.sub_spec.
  change (Prim2SF 0) with (S754_zero false).
  intros Hx Hy Hxy.
  apply SFsub_at_least_zero; try assumption; apply Prim2SF_valid.
Qed.

(** A number that is not negative is non-negative. *)
Lemma not_negative_number (x : float) :
  BasicConcepts.negative x = false -> PrimFloat.is_nan x = false ->
  BasicConcepts.non_negative x = true.
Proof.
  intros H Hn. apply not_negative_iff in H as [H|H]; [exact H | congruence].
Qed.

(** What is non-negative is not negative. *)
Lemma non_negative_not_negative (x : float) :
  BasicConcepts.non_negative x = true -> BasicConcepts.negative x = false.
Proof. intros H. apply not_negative_iff. now left. Qed.

End DoubleFacts.

(** ** BankAccount *)

Module BankAccountFacts.
Import Cxx BasicConcepts DoubleFacts.

Ltac run_member :=
  cbv beta iota delta
    [getAccountHolder getMaskedAccountNumber getBalance deposit withdraw
     changePin deactivateAccount activateAccount logTransaction invoke
     bind ret throw throw_if this print modify set_balance set_pin
     set_isActive isAccountActive];
  cbn [self cout fst snd].

Lemma validatePin_true (a : BankAccount) (p : string) :
  validatePin a p = true <-> p = pin a.
Proof. unfold validatePin. rewrite String.eqb_eq. split; congruence. Qed.

Lemma validatePin_false (a : BankAccount) (p : string) :
  validatePin a p = false <-> p <> pin a.
Proof. unfold validatePin. rewrite String.eqb_neq. split; congruence. Qed.

(** With the right PIN and positive amount beyond the balance, [withdraw]
    prints its message and returns [false]; the account is as before. *)
Lemma withdraw_beyond_balance (s : state) (amount : float) (p : string) :
  isActive (self s) = true ->
  validatePin (self s) p = true ->
  PrimFloat.leb amount 0 = false ->
  dgt amount (balance (self s)) = true ->
  withdraw amount p s =
    (Returned false,
     mkState (self s)
       (cout s ++ [OStr "Insufficient funds. Available balance: $";
                   ODouble (balance (self s)); OEndl])).
Proof.
  intros Ha Hp Hpos Hgt. destruct s as [a out]. cbn [self cout] in *.
  run_member. rewrite Ha, Hp, Hpos, Hgt. reflexivity.
Qed.

(** C1, as the claim has it, does not hold: on the account of the demo
    (balance 100) [withdraw(1000.0, "0000")] returns, it does not throw. *)
Lemma withdraw_insufficient_funds_not_thrown :
  ~ (forall (s : state) (amount : float) (p : string),
       isActive (self s) = true ->
       validatePin (self s) p = true ->
       dgt amount (balance (self s)) = true ->
       exists e, fst (withdraw amount p s) = Thrown e).
Proof.
  intros H.
  destruct (H (mkState (mkBankAccount "Test User" "1111111111" 100 "0000"
                          true) []) 1000%float "0000"%string)
    as [e He]; try reflexivity.
  vm_compute in He. discriminate He.
Qed.

(** C1, amended: on an active account whose balance is not negative, with
    the right PIN and an amount greater than the balance, [withdraw] throws
    nothing: it returns [false] after printing the balance, and leaves the
    account as it was. *)
Theorem withdraw_insufficient_funds (s : state) (amount : float)
  (p : string) :
  isActive (self s) = true ->
  negative (balance (self s)) = false ->
  p = pin (self s) ->
  dgt amount (balance (self s)) = true ->
  fst (withdraw amount p s) = Returned false /\
  self (snd (withdraw amount p s)) = self s /\
  cout (snd (withdraw amount p s)) =
    cout s ++ [OStr "Insufficient funds. Available balance: $";
               ODouble (balance (self s)); OEndl].
Proof.
  intros Ha Hb Hp Hgt.
  rewrite withdraw_beyond_balance;
    [repeat split | assumption | now apply validatePin_true | | assumption].
  now apply dgt_positive with (x := balance (self s)).
Qed.

Lemma withdraw_insufficient_funds_witness :
  let s := mkState (mkBankAccount "Test User" "1111111111" 100 "0000" true)
             [] in
  fst (withdraw 1000 "0000" s) = Returned false /\
  self (snd (withdraw 1000 "0000" s)) = self s /\
  cout (snd (withdraw 1000 "0000" s)) =
    cout s ++ [OStr "Insufficient funds. Available balance: $";
               ODouble (balance (self s)); OEndl].
Proof.
  exact (withdraw_insufficient_funds
           (mkState (mkBankAccount "Test User" "1111111111" 100 "0000" true)
              [])
           1000%float "0000"%string eq_refl eq_refl eq_refl eq_refl).
Defined.

(** C5: on an active account, [getBalance] with a PIN that is not the
    account's throws the runtime error "Invalid PIN" and changes nothing:
    balance, PIN and active flag (the whole object, and [std::cout]) are as
    before. *)
Theorem getBalance_wrong_pin (s : state) (inputPin : string) :
  isActive (self s) = true ->
  inputPin <> pin (self s) ->
  getBalance inputPin s = (Thrown (runtime_error "Invalid PIN"), s).
Proof.
  intros Ha Hp. apply validatePin_false in Hp.
  destruct s as [a out]. cbn [self] in *.
  run_member. rewrite Ha, Hp. reflexivity.
Qed.

Lemma getBalance_wrong_pin_witness :
  let s := mkState (mkBankAccount "John Doe" "1234567890" 1000 "1234" true)
             [] in
  getBalance "0000" s = (Thrown (runtime_error "Invalid PIN"), s).
Proof.
  refine (getBalance_wrong_pin
            (mkState (mkBankAccount "John Doe" "1234567890" 1000 "1234" true)
               [])
            "0000"%string eq_refl _).
  cbn. discriminate.
Defined.

(** C10: [changePin] never throws; it returns [true] exactly when the old
    PIN matches and the new PIN has length 4, and then the stored PIN is the
    new one (nothing else of the account changes); otherwise it returns
    [false] and the account, its PIN included, is as before. *)
Theorem changePin_spec (s : state) (oldPin newPin : string) :
  is_thrown (fst (changePin oldPin newPin s)) = false /\
  (fst (changePin oldPin newPin s) = Returned true <->
     oldPin = pin (self s) /\ String.length newPin = 4%nat) /\
  (oldPin = pin (self s) /\ String.length newPin = 4%nat ->
     self (snd (changePin oldPin newPin s)) =
       mkBankAccount (accountHolder (self s)) (accountNumber (self s))
         (balance (self s)) newPin (isActive (self s))) /\
  (oldPin <> pin (self s) \/ String.length newPin <> 4%nat ->
     fst (changePin oldPin newPin s) = Returned false /\
     self (snd (changePin oldPin newPin s)) = self s).
Proof.
  destruct s as [a out]. cbn [self].
  pose proof (validatePin_true a oldPin) as Ht.
  pose proof (validatePin_false a oldPin) as Hf.
  run_member.
  destruct (validatePin a oldPin) eqn:V; cbn [negb].
  - assert (oldPin = pin a) as E by now apply Ht.
    destruct (Nat.eqb_spec (String.length newPin) 4) as [L|L];
      cbn [negb fst snd self is_thrown].
    + split; [reflexivity|]. split; [tauto|]. split; [reflexivity|].
      intros [C|C]; contradiction.
    + split; [reflexivity|]. split; [|split; [tauto|tauto]].
      split; [discriminate | tauto].
  - assert (oldPin <> pin a) as N by now apply Hf.
    cbn [fst snd self is_thrown].
    split; [reflexivity|]. split; [|split; [tauto|tauto]].
    split; [discriminate | tauto].
Qed.

Lemma changePin_spec_witness :
  let s := mkState (mkBankAccount "John Doe" "1234567890" 1000 "1234" true)
             [] in
  fst (changePin "1234" "4321" s) = Returned true /\
  pin (self (snd (changePin "1234" "4321" s))) = "4321"%string /\
  fst (changePin "0000" "4321" s) = Returned false /\
  fst (changePin "1234" "54321" s) = Returned false.
Proof.
  intros s. split; [| split; [| split]].
  - apply (proj1 (proj2 (changePin_spec s "1234" "4321"))). now split.
  - rewrite (proj1 (proj2 (proj2 (changePin_spec s "1234" "4321"))));
      [reflexivity | now split].
  - apply (proj2 (proj2 (proj2 (changePin_spec s "0000" "4321")))).
    left. cbn. discriminate.
  - apply (proj2 (proj2 (proj2 (changePin_spec s "1234" "54321")))).
    right. cbn. discriminate.
Defined.

(** A constructor call that returns gives an active account with the PIN
    and the initial balance passed, and the latter is not negative. *)
Lemma constructor_returned (holder accNum userPin : string)
  (initialBalance : float) (out out' : ostream) (a : BankAccount) :
  constructor holder accNum userPin initialBalance out = (Returned a, out') ->
  a = mkBankAccount holder accNum initialBalance userPin true /\
  negative initialBalance = false.
Proof.
  unfold constructor, negative.
  cbv beta iota delta [bind ret throw throw_if modify].
  destruct (String.length holder =? 0)%nat; [discriminate|].
  destruct (String.length accNum <? 10)%nat; [discriminate|].
  destruct (negb (String.length userPin =? 4)%nat); [discriminate|].
  destruct (PrimFloat.ltb initialBalance 0); [discriminate|].
  intros [= <- _]. split; reflexivity.
Qed.

Lemma deposit_preserves (amount : float) (p : string) (s : state) :
  negative (balance (self s)) = false ->
  negative (balance (self (snd (deposit amount p s)))) = false.
Proof.
  intros Hb. destruct s as [a out]. cbn [self] in Hb. run_member.
  destruct (isActive a); cbn [negb self snd]; [|assumption].
  destruct (validatePin a p); cbn [negb self snd]; [|assumption].
  destruct (PrimFloat.leb amount 0) eqn:Hpos; cbn [self snd balance];
    [assumption|].
  now apply add_not_negative.
Qed.

Lemma withdraw_preserves (amount : float) (p : string) (s : state) :
  negative (balance (self s)) = false ->
  negative (balance (self (snd (withdraw amount p s)))) = false.
Proof.
  intros Hb. destruct s as [a out]. cbn [self] in Hb. run_member.
  destruct (isActive a); cbn [negb self snd]; [|assumption].
  destruct (validatePin a p); cbn [negb self snd]; [|assumption].
  destruct (PrimFloat.leb amount 0) eqn:Hpos; cbn [self snd balance];
    [assumption|].
  destruct (dgt amount (balance a)) eqn:Hgt; cbn [self snd balance];
    [assumption|].
  now apply sub_not_negative.
Qed.

Lemma invoke_preserves (c : call) (s : state) :
  negative (balance (self s)) = false ->
  negative (balance (self (snd (invoke c s)))) = false.
Proof.
  intros Hb. destruct c as [| |p|x p|x p|p q|p|p]; cbn [invoke].
  - destruct s as [a out]. now run_member.
  - destruct s as [a out]. run_member.
    now destruct (4 <=? String.length (accountNumber a))%nat.
  - destruct s as [a out]. run_member.
    destruct (isActive a); cbn [negb self snd]; [|assumption].
    now destruct (validatePin a p).
  - pose proof (deposit_preserves x p s Hb) as H.
    unfold bind. destruct (deposit x p s) as [[[]|e] s']; exact H.
  - pose proof (withdraw_preserves x p s Hb) as H.
    unfold bind. destruct (withdraw x p s) as [[b|e] s']; exact H.
  - destruct s as [a out]. run_member.
    destruct (validatePin a p); cbn [negb self snd]; [|assumption].
    now destruct (String.length q =? 4)%nat.
  - destruct s as [a out]. run_member.
    now destruct (validatePin a p).
  - destruct s as [a out]. run_member.
    now destruct (validatePin a p).
Qed.

Lemma invoke_all_preserves (cs : list call) :
  forall s : state,
    negative (balance (self s)) = false ->
    negative (balance (self (invoke_all cs s))) = false.
Proof.
  induction cs as [|c cs IH]; intros s Hb; cbn [invoke_all].
  - assumption.
  - apply IH. now apply invoke_preserves.
Qed.

Lemma constructor_number (holder accNum userPin : string)
  (initialBalance : float) (out out' : ostream) (a : BankAccount) :
  constructor holder accNum userPin initialBalance out = (Returned a, out') ->
  PrimFloat.is_nan initialBalance = false ->
  non_negative (balance a) = true.
Proof.
  intros H Hn. apply constructor_returned in H as [-> H]. cbn [balance].
  now apply not_negative_number.
Qed.

Lemma deposit_non_negative (amount : float) (p : string) (s : state) :
  PrimFloat.is_nan amount = false ->
  non_negative (balance (self s)) = true ->
  non_negative (balance (self (snd (deposit amount p s)))) = true.
Proof.
  intros Hn Hb. destruct s as [a out]. cbn [self] in Hb. run_member.
  destruct (isActive a); cbn [negb self snd]; [|assumption].
  destruct (validatePin a p); cbn [negb self snd]; [|assumption].
  destruct (PrimFloat.leb amount 0) eqn:Hpos; cbn [self snd balance];
    [assumption|].
  now apply add_non_negative.
Qed.

Lemma withdraw_non_negative (amount : float) (p : string) (s : state) :
  PrimFloat.is_finite amount = true ->
  non_negative (balance (self s)) = true ->
  non_negative (balance (self (snd (withdraw amount p s)))) = true.
Proof.
  intros Hf Hb. destruct s as [a out]. cbn [self] in Hb. run_member.
  destruct (isActive a); cbn [negb self snd]; [|assumption].
  destruct (validatePin a p); cbn [negb self snd]; [|assumption].
  destruct (PrimFloat.leb amount 0) eqn:Hpos; cbn [self snd balance];
    [assumption|].
  destruct (dgt amount (balance a)) eqn:Hgt; cbn [self snd balance];
    [assumption|].
  now apply sub_non_negative.
Qed.

Lemma invoke_non_negative (c : call) (s : state) :
  amount_is_number c = true ->
  non_negative (balance (self s)) = true ->
  non_negative (balance (self (snd (invoke c s)))) = true.
Proof.
  intros Hc Hb. destruct c as [| |p|x p|x p|p q|p|p]; cbn [invoke].
  - destruct s as [a out]. now run_member.
  - destruct s as [a out]. run_member.
    now destruct (4 <=? String.length (accountNumber a))%nat.
  - destruct s as [a out]. run_member.
    destruct (isActive a); cbn [negb self snd]; [|assumption].
    now destruct (validatePin a p).
  - cbn [amount_is_number] in Hc. apply negb_true_iff in Hc.
    pose proof (deposit_non_negative x p s Hc Hb) as H.
    unfold bind. destruct (deposit x p s) as [[[]|e] s']; exact H.
  - cbn [amount_is_number] in Hc.
    pose proof (withdraw_non_negative x p s Hc Hb) as H.
    unfold bind. destruct (withdraw x p s) as [[b|e] s']; exact H.
  - destruct s as [a out]. run_member.
    destruct (validatePin a p); cbn [negb self snd]; [|assumption].
    now destruct (String.length q =? 4)%nat.
  - destruct s as [a out]. run_member.
    now destruct (validatePin a p).
  - destruct s as [a out]. run_member.
    now destruct (validatePin a p).
Qed.

Lemma invoke_all_non_negative (cs : list call) :
  forall s : state,
    forallb amount_is_number cs = true ->
    non_negative (balance (self s)) = true ->
    non_negative (balance (self (invoke_all cs s))) = true.
Proof.
  induction cs as [|c cs IH]; intros s Hcs Hb; cbn [invoke_all].
  - assumption.
  - cbn [forallb] in Hcs. apply andb_true_iff in Hcs as [Hc Hcs].
    apply IH; [assumption|]. now apply invoke_non_negative.
Qed.

(** C6 as stated does not hold of doubles: the checks of the class are
    [initialBalance < 0], [amount <= 0] and [amount > balance], and a NaN
    passes all three. The constructor accepts a NaN as the initial balance,
    and the object it gives has a balance that is not non-negative; a
    deposit of a NaN on the balance 100, and the withdrawal of an infinity
    from an infinite balance, are carried out and turn a non-negative
    balance into a NaN; on a NaN balance the withdrawal of 1e300 is carried
    out and returns true. *)
Lemma balance_non_negative_fails :
  (exists a : BankAccount,
     fst (constructor "John Doe" "1234567890" "1234" nan [])
       = Returned a /\ non_negative (balance a) = false) /\
  (let s := mkState (mkBankAccount "John Doe" "1234567890" 100 "1234" true)
              [] in
   non_negative (balance (self s)) = true /\
   fst (invoke (call_deposit nan "1234") s) = Returned VVoid /\
   non_negative (balance (self (snd (invoke (call_deposit nan "1234") s))))
     = false) /\
  (let s := mkState (mkBankAccount "John Doe" "1234567890" infinity "1234"
                       true) [] in
   non_negative (balance (self s)) = true /\
   fst (invoke (call_withdraw infinity "1234") s) = Returned (VBool true) /\
   non_negative
     (balance (self (snd (invoke (call_withdraw infinity "1234") s))))
     = false) /\
  (let s := mkState (mkBankAccount "John Doe" "1234567890" nan "1234" true)
              [] in
   fst (invoke (call_withdraw 1e300 "1234") s) = Returned (VBool true)) /\
  ~ ((forall (holder accNum userPin : string) (initialBalance : float)
             (out out' : ostream) (a : BankAccount),
        constructor holder accNum userPin initialBalance out
          = (Returned a, out') -> non_negative (balance a) = true) /\
     (forall (c : call) (s : state),
        non_negative (balance (self s)) = true ->
        non_negative (balance (self (snd (invoke c s)))) = true)).
Proof.
  split; [|split; [|split; [|split]]].
  - eexists. split; reflexivity.
  - repeat split.
  - repeat split.
  - reflexivity.
  - intros [H _].
    specialize (H "John Doe"%string "1234567890"%string "1234"%string nan []
                  _ _ eq_refl).
    discriminate H.
Qed.

(** C6, amended: the balance is never below zero, and it is non-negative
    as long as the amounts are numbers. [balance < 0] is false in the
    object a returning constructor call gives, stays false under each
    public member function, whether it returns (true, false or a value) or
    throws, and so is false after any sequence of public calls on a
    constructed account. [balance >= 0] holds in the object a returning
    constructor call gives when the initial balance is not a NaN; each
    public member function keeps it, whether it returns or throws, when the
    amount it is called with is a number (not a NaN for a deposit, finite
    for a withdrawal); so it holds after any sequence of such calls on an
    account constructed with a number. *)
Theorem balance_non_negative :
  ((forall (holder accNum userPin : string) (initialBalance : float)
           (out out' : ostream) (a : BankAccount),
      constructor holder accNum userPin initialBalance out
        = (Returned a, out') -> negative (balance a) = false) /\
   (forall (c : call) (s : state),
      negative (balance (self s)) = false ->
      negative (balance (self (snd (invoke c s)))) = false) /\
   (forall (holder accNum userPin : string) (initialBalance : float)
           (out out' : ostream) (a : BankAccount) (cs : list call),
      constructor holder accNum userPin initialBalance out
        = (Returned a, out') ->
      negative (balance (self (invoke_all cs (mkState a out')))) = false)) /\
  ((forall (holder accNum userPin : string) (initialBalance : float)
           (out out' : ostream) (a : BankAccount),
      constructor holder accNum userPin initialBalance out
        = (Returned a, out') ->
      PrimFloat.is_nan initialBalance = false ->
      non_negative (balance a) = true) /\
   (forall (c : call) (s : state),
      amount_is_number c = true ->
      non_negative (balance (self s)) = true ->
      non_negative (balance (self (snd (invoke c s)))) = true) /\
   (forall (holder accNum userPin : string) (initialBalance : float)
           (out out' : ostream) (a : BankAccount) (cs : list call),
      constructor holder accNum userPin initialBalance out
        = (Returned a, out') ->
      PrimFloat.is_nan initialBalance = false ->
      forallb amount_is_number cs = true ->
      non_negative (balance (self (invoke_all cs (mkState a out')))) = true)).
Proof.
  split; split; [| split | | split].
  - intros holder accNum userPin initialBalance out out' a H.
    apply constructor_returned in H as [-> H]. exact H.
  - exact invoke_preserves.
  - intros holder accNum userPin initialBalance out out' a cs H.
    apply invoke_all_preserves. cbn [self].
    apply constructor_returned in H as [-> H]. exact H.
  - exact constructor_number.
  - exact invoke_non_negative.
  - intros holder accNum userPin initialBalance out out' a cs H Hn Hcs.
    apply invoke_all_non_negative; [assumption|]. cbn [self].
    exact (constructor_number _ _ _ _ _ _ _ H Hn).
Qed.

Lemma balance_non_negative_witness :
  let a := mkBankAccount "John Doe" "1234567890" 1000 "1234" true in
  let out := [OStr "Bank account created for "; OStr "John Doe"; OEndl] in
  non_negative
    (balance
       (self
          (invoke_all
             [call_deposit 500 "1234"; call_withdraw 200 "1234";
              call_withdraw 5000 "1234"; call_getBalance "0000";
              call_changePin "1234" "4321"; call_withdraw 1300 "4321"]
             (mkState a out)))) = true.
Proof.
  exact (proj2 (proj2 (proj2 balance_non_negative))
           "John Doe"%string "1234567890"%string "1234"%string 1000%float []
           [OStr "Bank account created for "; OStr "John Doe"; OEndl]
           (mkBankAccount "John Doe" "1234567890" 1000 "1234" true)
           [call_deposit 500 "1234"; call_withdraw 200 "1234";
            call_withdraw 5000 "1234"; call_getBalance "0000";
            call_changePin "1234" "4321"; call_withdraw 1300 "4321"]
           eq_refl eq_refl eq_refl).
Defined.

(** The balance the demo's account ends with, after the calls of the
    witness above: 1000 + 500 - 200 - 1300. *)
Example balance_after_demo :
  balance
    (self
       (invoke_all
          [call_deposit 500 "1234"; call_withdraw 200 "1234";
           call_withdraw 5000 "1234"; call_getBalance "0000";
           call_changePin "1234" "4321"; call_withdraw 1300 "4321"]
          (mkState (mkBankAccount "John Doe" "1234567890" 1000 "1234" true)
             []))) = 0%float.
Proof. reflexivity. Qed.

(** An account opened with an infinite balance, after the withdrawal of
    an infinite amount, has a balance that is not a number (neither
    negative nor at least 0). *)
Example balance_can_be_nan :
  let s := mkState (mkBankAccount "John Doe" "1234567890" infinity "1234"
                      true) [] in
  fst (constructor "John Doe" "1234567890" "1234" infinity [])
    = Returned (self s) /\
  fst (withdraw infinity "1234" s) = Returned true /\
  PrimFloat.is_nan (balance (self (snd (withdraw infinity "1234" s)))) = true.
Proof. repeat split. Qed.

End BankAccountFacts.

(** ** The decorator chains *)

Module DecoratorFacts.
Import Cxx Decorator.
#[local] Open Scope string_scope.

Lemma append_assoc (s1 s2 s3 : string) :
  (s1 ++ s2) ++ s3 = s1 ++ (s2 ++ s3).
Proof.
  induction s1 as [|c s1 IH]; [reflexivity|].
  change (String c ((s1 ++ s2) ++ s3) = String c (s1 ++ (s2 ++ s3))).
  now f_equal.
Qed.

Lemma append_inv_head (s s1 s2 : string) : s ++ s1 = s ++ s2 -> s1 = s2.
Proof.
  induction s as [|c s IH]; [trivial|].
  change (String c (s ++ s1) = String c (s ++ s2) -> s1 = s2).
  intros [= H]. now apply IH.
Qed.

Lemma getDescription_wrap (d : decorator) (c : Coffee) :
  getDescription (wrap d c) = getDescription c ++ suffix d.
Proof. now destruct d. Qed.

Lemma getCost_wrap (d : decorator) (c : Coffee) :
  getCost (wrap d c) = (getCost c + delta d)%float.
Proof. now destruct d. Qed.

Lemma prepare_wrap (d : decorator) (c : Coffee) (cout : ostream) :
  prepare (wrap d c) cout = (prepare c cout ++ effect d)%list.
Proof. now destruct d. Qed.

(** A chain of any length: the suffixes are appended, and the deltas added,
    in wrapping order. *)
Lemma getDescription_decorate (ds : list decorator) :
  forall base : Coffee,
    getDescription (decorate base ds) =
      fold_left (fun s d => s ++ suffix d) ds (getDescription base).
Proof.
  unfold decorate.
  induction ds as [|d ds IH]; intros base; cbn [fold_left]; [reflexivity|].
  now rewrite IH, getDescription_wrap.
Qed.

Lemma getCost_decorate (ds : list decorator) :
  forall base : Coffee,
    getCost (decorate base ds) =
      fold_left (fun x d => (x + delta d)%float) ds (getCost base).
Proof.
  unfold decorate.
  induction ds as [|d ds IH]; intros base; cbn [fold_left]; [reflexivity|].
  now rewrite IH, getCost_wrap.
Qed.

(** C2: for every base [b] (itself a chain or not) and decorators [A], [B],
    the chain b, then A, then B describes itself as b's description, A's
    suffix, B's suffix, and costs b's cost plus A's delta plus B's delta
    (added in that order, on doubles). *)
Theorem chain_describe_cost (b : Coffee) (A B : decorator) :
  getDescription (wrap B (wrap A b)) = getDescription b ++ suffix A ++ suffix B
  /\ getCost (wrap B (wrap A b)) = (getCost b + delta A + delta B)%float.
Proof.
  rewrite !getDescription_wrap, !getCost_wrap, append_assoc. now split.
Qed.

(** The orders of the demo: Espresso with milk, sugar and vanilla. *)
Example demo_coffee2 :
  let coffee2 := decorate Espresso [Milk; Sugar; Vanilla] in
  getDescription coffee2 = "Espresso + Milk + Sugar + Vanilla" /\
  getCost coffee2 = (3.0 + 0.5 + 0.2 + 0.7)%float.
Proof. split; reflexivity. Qed.

(** Two different decorators, swapped, always change the description. *)
Lemma describe_order_sensitive (b : Coffee) (A B : decorator) :
  A <> B ->
  getDescription (wrap B (wrap A b)) <> getDescription (wrap A (wrap B b)).
Proof.
  intros Hne. rewrite !getDescription_wrap, !append_assoc.
  intros H. apply append_inv_head in H.
  destruct A, B; try contradiction; vm_compute in H; discriminate H.
Qed.

Lemma describe_order_sensitive_witness :
  getDescription (wrap Sugar (wrap Milk SimpleCoffee))
    <> getDescription (wrap Milk (wrap Sugar SimpleCoffee)).
Proof.
  apply (describe_order_sensitive SimpleCoffee Milk Sugar). discriminate.
Defined.

(** C3: wrapping order is not commutative. Some base and two different
    decorators, swapped, give different descriptions; and the Caesar shift
    and the upper-casing, swapped, give different processed text (and
    different processing info) for some shift and some text. *)
Theorem wrapping_order_not_commutative :
  (exists (b : Coffee) (A B : decorator),
     A <> B /\
     getDescription (wrap B (wrap A b)) <> getDescription (wrap A (wrap B b)))
  /\
  (exists (shift : Z) (text : string),
     process (UpperCaseDecorator (EncryptionDecorator PlainTextProcessor shift))
       text
     <> process
          (EncryptionDecorator (UpperCaseDecorator PlainTextProcessor) shift)
          text
     /\ getProcessingInfo
          (UpperCaseDecorator (EncryptionDecorator PlainTextProcessor shift))
        <> getProcessingInfo
             (EncryptionDecorator (UpperCaseDecorator PlainTextProcessor)
                shift)).
Proof.
  split.
  - exists SimpleCoffee, Milk, Sugar. split; [discriminate|].
    apply describe_order_sensitive. discriminate.
  - exists (-1)%Z, "a". split; vm_compute; discriminate.
Qed.

(** The two texts of the theorem above. *)
Example encrypt_then_upper :
  process (UpperCaseDecorator (EncryptionDecorator PlainTextProcessor (-1)))
    "a" = "`".
Proof. reflexivity. Qed.

Example upper_then_encrypt :
  process (EncryptionDecorator (UpperCaseDecorator PlainTextProcessor) (-1))
    "a" = "@".
Proof. reflexivity. Qed.

(** *** The Caesar shift and the upper-casing, for shifts from 0 to
    [INT_MAX - 25] *)

Lemma code_range (c : ascii) : (0 <= code c < 256)%Z.
Proof. unfold code. pose proof (N_ascii_bounded c). lia. Qed.

Lemma code_char_of_int (z : Z) : (0 <= z < 256)%Z -> code (char_of_int z) = z.
Proof.
  intros Hz. unfold code, char_of_int.
  rewrite Z.mod_small by assumption.
  rewrite N_ascii_embedding by lia. lia.
Qed.

Lemma isupper_iff (c : ascii) : isupper c = true <-> (65 <= code c <= 90)%Z.
Proof. unfold isupper. rewrite andb_true_iff, !Z.leb_le. tauto. Qed.

Lemma islower_iff (c : ascii) : islower c = true <-> (97 <= code c <= 122)%Z.
Proof. unfold islower. rewrite andb_true_iff, !Z.leb_le. tauto. Qed.

Lemma isupper_char (z : Z) :
  (65 <= z <= 90)%Z ->
  isupper (char_of_int z) = true /\ islower (char_of_int z) = false.
Proof.
  intros Hz. split.
  - apply isupper_iff. rewrite code_char_of_int; lia.
  - apply not_true_is_false. rewrite islower_iff, code_char_of_int; lia.
Qed.

Lemma islower_char (z : Z) :
  (97 <= z <= 122)%Z ->
  islower (char_of_int z) = true /\ isupper (char_of_int z) = false.
Proof.
  intros Hz. split.
  - apply islower_iff. rewrite code_char_of_int; lia.
  - apply not_true_is_false. rewrite isupper_iff, code_char_of_int; lia.
Qed.

Lemma upper_encrypt_char (shift : Z) (c : ascii) :
  (0 <= shift <= INT_MAX - 25)%Z ->
  toupper (encrypt_char shift c) = encrypt_char shift (toupper c).
Proof.
  intros Hs. unfold toupper, encrypt_char, isalpha.
  unfold INT_MAX in Hs.
  destruct (isupper c) eqn:U.
  - apply isupper_iff in U as Hc.
    assert (islower c = false) as L
      by (apply not_true_is_false; rewrite islower_iff; lia).
    rewrite L. cbn [orb]. rewrite U.
    rewrite IntFacts.int_wrap_id by (unfold INT_MIN, INT_MAX; lia).
    pose proof (Z.rem_bound_pos (code c - 65 + shift) 26) as Hr.
    destruct (isupper_char (Z.rem (code c - 65 + shift) 26 + 65)) as [_ ->];
      [lia | reflexivity].
  - destruct (islower c) eqn:L; cbn [orb]; [|now rewrite U, L].
    apply islower_iff in L as Hc.
    rewrite IntFacts.int_wrap_id by (unfold INT_MIN, INT_MAX; lia).
    pose proof (Z.rem_bound_pos (code c - 97 + shift) 26) as Hr.
    destruct (islower_char (Z.rem (code c - 97 + shift) 26 + 97)) as [-> _];
      [lia|].
    destruct (isupper_char (code c - 32)) as [-> _]; [lia|]. cbn [orb].
    rewrite !code_char_of_int by lia.
    replace (code c - 32 - 65 + shift)%Z with (code c - 97 + shift)%Z
      by lia.
    rewrite IntFacts.int_wrap_id by (unfold INT_MIN, INT_MAX; lia).
    f_equal. lia.
Qed.

Lemma transform_transform (f g : ascii -> ascii) (s : string) :
  transform f (transform g s) = transform (fun c => f (g c)) s.
Proof.
  induction s as [|c s IH]; cbn [transform]; [reflexivity | now rewrite IH].
Qed.

Lemma transform_ext (f g : ascii -> ascii) (s : string) :
  (forall c, f c = g c) -> transform f s = transform g s.
Proof.
  intros H. induction s as [|c s IH]; cbn [transform];
    [reflexivity | now rewrite H, IH].
Qed.

(** With a shift from 0 up to [INT_MAX - 25] (so that the sum
    [c - base + shift] is an [int] for every letter), upper-casing after the
    Caesar shift and the Caesar shift after upper-casing give the same text,
    whatever is wrapped and whatever the text. *)
Lemma upper_encrypt_same_text (shift : Z) (p : TextProcessor)
  (text : string) :
  (0 <= shift <= INT_MAX - 25)%Z ->
  process (UpperCaseDecorator (EncryptionDecorator p shift)) text =
  process (EncryptionDecorator (UpperCaseDecorator p) shift) text.
Proof.
  intros Hs. cbn [process]. rewrite !transform_transform.
  apply transform_ext. intros c. now apply upper_encrypt_char.
Qed.

Lemma upper_encrypt_same_text_witness :
  process (UpperCaseDecorator (EncryptionDecorator PlainTextProcessor 3))
    "Hello World!" =
  process (EncryptionDecorator (UpperCaseDecorator PlainTextProcessor) 3)
    "Hello World!".
Proof.
  apply (upper_encrypt_same_text 3 PlainTextProcessor "Hello World!").
  unfold INT_MAX. lia.
Defined.

(** Beyond that bound the two orders can differ: with the shift [INT_MAX],
    "b" gives "I" when upper-cased last and ")" when upper-cased first. *)
Example upper_encrypt_differ_at_INT_MAX :
  process (UpperCaseDecorator (EncryptionDecorator PlainTextProcessor INT_MAX))
    "b" = "I" /\
  process (EncryptionDecorator (UpperCaseDecorator PlainTextProcessor) INT_MAX)
    "b" = ")".
Proof. split; reflexivity. Qed.

(** *** The order of the effects *)

Lemma prepare_from (c : Coffee) (cout : ostream) :
  prepare c cout = (cout ++ prepare c [])%list.
Proof.
  induction c as [| |c IH|c IH|c IH|c IH|c IH]; cbn [prepare];
    try reflexivity; try exact IH;
    rewrite IH; symmetry; apply app_assoc.
Qed.

Lemma prepare_decorate (ds : list decorator) :
  forall (base : Coffee) (cout : ostream),
    prepare (decorate base ds) cout =
      (prepare base cout ++ flat_map effect ds)%list.
Proof.
  unfold decorate.
  induction ds as [|d ds IH]; intros base cout; cbn [fold_left flat_map].
  - now rewrite app_nil_r.
  - rewrite IH, prepare_wrap. symmetry. apply app_assoc.
Qed.

Lemma prepare_innermost_first (c : Coffee) :
  exists rest : list out_item,
    prepare c [] = (prepare (innermost c) [] ++ rest)%list.
Proof.
  induction c as [| |c [r IH]|c [r IH]|c [r IH]|c [r IH]|c [r IH]];
    cbn [prepare innermost].
  1,2: exists []; now rewrite app_nil_r.
  - now exists r.
  - eexists. rewrite IH. symmetry. apply app_assoc.
  - eexists. rewrite IH. symmetry. apply app_assoc.
  - eexists. rewrite IH. symmetry. apply app_assoc.
  - eexists. rewrite IH. symmetry. apply app_assoc.
Qed.

Lemma process_text_decorate (ds : list text_decorator) :
  forall (base : TextProcessor) (text : string),
    process (text_decorate base ds) text =
      fold_left (fun processed d => text_effect d processed) ds
        (process base text).
Proof.
  unfold text_decorate.
  induction ds as [|d ds IH]; intros base text; cbn [fold_left];
    [reflexivity|].
  rewrite IH. now destruct d.
Qed.

(** C4: the effects run strictly from the inside out. A wrapper's
    [prepare] is the wrapped object's [prepare] followed by the wrapper's
    own output; so a chain's output is the base's output followed by the
    decorators' outputs in wrapping order, and whatever the chain, what the
    innermost object prints comes first. The text processors' [process]
    composes the same way. *)
Theorem perform_inner_to_outer :
  (forall (d : decorator) (c : Coffee) (cout : ostream),
     prepare (wrap d c) cout = (prepare c cout ++ effect d)%list) /\
  (forall (base : Coffee) (ds : list decorator) (cout : ostream),
     prepare (decorate base ds) cout =
       (cout ++ prepare base [] ++ flat_map effect ds)%list) /\
  (forall (c : Coffee) (cout : ostream),
     exists rest : list out_item,
       prepare c cout = (cout ++ prepare (innermost c) [] ++ rest)%list) /\
  (forall (base : TextProcessor) (ds : list text_decorator) (text : string),
     process (text_decorate base ds) text =
       fold_left (fun processed d => text_effect d processed) ds
         (process base text)).
Proof.
  split; [exact prepare_wrap|]. split; [|split].
  - intros base ds cout.
    rewrite prepare_decorate, (prepare_from base cout).
    symmetry. apply app_assoc.
  - intros c cout. destruct (prepare_innermost_first c) as [rest H].
    exists rest. now rewrite prepare_from, H.
  - intros base ds text. apply process_text_decorate.
Qed.

(** The output of the demo's second order. *)
Example demo_prepare_coffee2 :
  prepare (decorate Espresso [Milk; Sugar; Vanilla]) [] =
    [OStr "☕ Preparing rich espresso shot..."; OEndl;
     OStr "🥛 Adding creamy steamed milk..."; OEndl;
     OStr "🍯 Adding sweet sugar..."; OEndl;
     OStr "🌟 Adding aromatic vanilla flavor..."; OEndl].
Proof. reflexivity. Qed.

End DecoratorFacts.

(** ** The singleton holders *)

Module SingletonFacts.
Import Cxx Singleton.
#[local] Open Scope string_scope.

(** Once [DatabaseConnection::instance] is set, no step changes it, nor the
    objects on the heap. *)
Lemma exec_keeps_instance (st : step) (p : process) (a : positive) :
  instance p = Some a ->
  instance (snd (exec st p)) = Some a /\ heap (snd (exec st p)) = heap p.
Proof.
  intros Hi. destruct st as [c|r sql| |m| |e]; cbn [exec].
  - unfold DatabaseConnection_getInstance. rewrite Hi. now cbn.
  - unfold query. destruct r as [b| |]; [|now cbn|now cbn].
    destruct (heap p !! b); now cbn.
  - now cbn.
  - now cbn.
  - unfold ConfigManager_getInstance.
    destruct (ConfigManager_static p); now cbn.
  - unfold setEnvironment. destruct (ConfigManager_static p); now cbn.
Qed.

Lemma run_keeps_instance (sts : list step) :
  forall (p : process) (a : positive),
    instance p = Some a ->
    instance (run sts p) = Some a /\ heap (run sts p) = heap p.
Proof.
  induction sts as [|st sts IH]; intros p a Hi; cbn [run]; [now split|].
  destruct (exec_keeps_instance st p a Hi) as [Hi' Hh].
  destruct (IH _ a Hi') as [Hi'' Hh']. split; congruence.
Qed.

(** After a call of the accessor, the pointer is set to what it returned. *)
Lemma getInstance_sets (conn_str : string) (p : process) :
  exists a : positive,
    fst (DatabaseConnection_getInstance conn_str p) = on_heap a /\
    instance (snd (DatabaseConnection_getInstance conn_str p)) = Some a.
Proof.
  unfold DatabaseConnection_getInstance.
  destruct (instance p) as [a|] eqn:Hi; eexists; cbn; split; eauto.
Qed.

Lemma getInstance_when_set (conn_str : string) (p : process) (a : positive) :
  instance p = Some a ->
  DatabaseConnection_getInstance conn_str p = (on_heap a, p).
Proof. intros Hi. unfold DatabaseConnection_getInstance. now rewrite Hi. Qed.

(** No step destroys a singleton: a constructed static stays constructed,
    and the pointer of [DatabaseConnection] stays null or on a heap
    object. *)
Lemma exec_keeps_live (st : step) (p : process) :
  (Logger_constructed p = true ->
   Logger_constructed (snd (exec st p)) = true) /\
  (live static_ConfigManager p = true ->
   live static_ConfigManager (snd (exec st p)) = true) /\
  (instance_ok p = true -> instance_ok (snd (exec st p)) = true).
Proof.
  unfold instance_ok, live.
  destruct st as [c|r sql| |m| |e]; cbn [exec].
  - unfold DatabaseConnection_getInstance.
    destruct (instance p) as [a|] eqn:Hi; cbn [snd Logger_constructed
      ConfigManager_static instance heap]; [now rewrite Hi|].
    repeat split; try tauto. now rewrite lookup_insert_eq.
  - unfold query. destruct r as [b| |]; [|now cbn|now cbn].
    destruct (heap p !! b); now cbn.
  - now cbn.
  - now cbn.
  - unfold ConfigManager_getInstance.
    destruct (ConfigManager_static p) eqn:Hc; cbn [snd Logger_constructed
      ConfigManager_static instance heap]; [now rewrite Hc|].
    repeat split; tauto.
  - unfold setEnvironment.
    destruct (ConfigManager_static p) eqn:Hc; cbn [snd Logger_constructed
      ConfigManager_static instance heap]; [|now rewrite Hc].
    repeat split; tauto.
Qed.

Lemma run_keeps_live (sts : list step) :
  forall p : process,
    (Logger_constructed p = true -> Logger_constructed (run sts p) = true) /\
    (live static_ConfigManager p = true ->
     live static_ConfigManager (run sts p) = true) /\
    (instance_ok p = true -> instance_ok (run sts p) = true).
Proof.
  induction sts as [|st sts IH]; intros p; cbn [run]; [tauto|].
  destruct (exec_keeps_live st p) as (H1 & H2 & H3).
  destruct (IH (snd (exec st p))) as (H4 & H5 & H6).
  repeat split; auto.
Qed.

(** The object [DatabaseConnection::getInstance] returns is on the heap
    after the call, when the pointer was null or on a heap object before. *)
Lemma getInstance_live (conn_str : string) (p : process) :
  instance_ok p = true ->
  live (fst (DatabaseConnection_getInstance conn_str p))
    (snd (DatabaseConnection_getInstance conn_str p)) = true.
Proof.
  unfold instance_ok, DatabaseConnection_getInstance.
  destruct (instance p) as [a|]; cbn [fst snd]; [tauto|].
  intros _. cbn [live heap]. now rewrite lookup_insert_eq.
Qed.

(** C8: each accessor returns the same object on every call in a process,
    and the object is there. Whatever the state [p] at one call, whatever
    the arguments, and whatever the steps [between] that call and a later
    one: the later call returns the reference the earlier one returned; the
    reference denotes a live object after the earlier call, after the steps
    between and after the later call (for [DatabaseConnection], in a
    process whose pointer is null or on a heap object, as it is after any
    steps from the start of the process); and the later call finds the
    [DatabaseConnection] objects as the earlier one left them. *)
Theorem getInstance_identical (p : process) (between : list step) :
  (forall c1 c2 : string,
     let first := DatabaseConnection_getInstance c1 p in
     let later :=
       DatabaseConnection_getInstance c2 (run between (snd first)) in
     fst later = fst first /\
     (instance_ok p = true ->
      live (fst first) (snd first) = true /\
      live (fst first) (run between (snd first)) = true /\
      live (fst later) (snd later) = true /\
      heap (snd later) = heap (snd first))) /\
  (let first := Logger_getInstance p in
   let later := Logger_getInstance (run between (snd first)) in
   fst later = fst first /\
   live (fst first) (snd first) = true /\
   live (fst first) (run between (snd first)) = true /\
   live (fst later) (snd later) = true) /\
  (let first := ConfigManager_getInstance p in
   let later := ConfigManager_getInstance (run between (snd first)) in
   fst later = fst first /\
   live (fst first) (snd first) = true /\
   live (fst first) (run between (snd first)) = true /\
   live (fst later) (snd later) = true) /\
  (forall before : list step, instance_ok (run before start) = true).
Proof.
  split; [|split; [|split]].
  - intros c1 c2 first later.
    destruct (getInstance_sets c1 p) as (a & Hr & Hi). fold first in Hr, Hi.
    destruct (run_keeps_instance between _ a Hi) as [Hi' Hh].
    assert (later = (on_heap a, run between (snd first))) as Hl
      by (apply getInstance_when_set; exact Hi').
    rewrite Hl. cbn [fst snd]. split; [now rewrite Hr|].
    intros Hok.
    pose proof (getInstance_live c1 p Hok) as Hlive. fold first in Hlive.
    split; [exact Hlive|].
    assert (live (on_heap a) (run between (snd first)) = true) as Hlive'
      by (rewrite Hr in Hlive; cbn [live] in *; now rewrite Hh).
    rewrite Hr. now repeat split.
  - cbn zeta. split; [reflexivity|]. split; [reflexivity|].
    split; [|reflexivity].
    cbn [Logger_getInstance fst snd live].
    now apply (run_keeps_live between).
  - cbn zeta. split; [reflexivity|].
    assert (live static_ConfigManager (snd (ConfigManager_getInstance p))
            = true) as Hlive.
    { unfold ConfigManager_getInstance. cbn [snd live].
      destruct (ConfigManager_static p) eqn:Hc; cbn; [now rewrite Hc|].
      reflexivity. }
    split; [exact Hlive|].
    apply (run_keeps_live between) in Hlive.
    split; [exact Hlive|].
    set (q := run between (snd (ConfigManager_getInstance p))) in *.
    unfold ConfigManager_getInstance at 1 2. cbn [fst snd].
    cbn [live] in Hlive |- *.
    destruct (ConfigManager_static q) eqn:Hc; [now rewrite Hc | discriminate].
  - intros before. now apply (run_keeps_live before).
Qed.

Lemma getInstance_identical_witness :
  let between :=
    [call_query (on_heap 1) "SELECT * FROM users";
     call_Logger_info "Application started"; call_setEnvironment PRODUCTION] in
  let first := DatabaseConnection_getInstance "mysql://localhost:3306" start in
  let later :=
    DatabaseConnection_getInstance "postgres://localhost:5432"
      (run between (snd first)) in
  live (fst first) (snd first) = true /\
  live (fst first) (run between (snd first)) = true /\
  live (fst later) (snd later) = true /\
  heap (snd later) = heap (snd first).
Proof.
  intros between.
  exact (proj2 (proj1 (getInstance_identical start between)
                  "mysql://localhost:3306" "postgres://localhost:5432")
           eq_refl).
Defined.

(** C9: when the first call is made (the pointer is null), a later call
    with any other string, after any steps, returns the object of the first
    call, whose connection string is the first call's; it changes
    nothing (no object made, nothing printed); and the only object made
    since before the first call is that one: none has the later string. *)
Theorem getInstance_ignores_later_string (p : process) (c1 c2 : string)
  (between : list step) :
  instance p = None ->
  let first := DatabaseConnection_getInstance c1 p in
  let later := DatabaseConnection_getInstance c2 (run between (snd first)) in
  fst later = fst first /\
  snd later = run between (snd first) /\
  (exists a : positive,
     fst later = on_heap a /\
     heap (snd later) !! a = Some (mkDatabaseConnection c1)) /\
  (forall (a : positive) (db : DatabaseConnection),
     heap (snd later) !! a = Some db -> heap p !! a = None ->
     connection_string db = c1 /\ (c2 <> c1 -> connection_string db <> c2)).
Proof.
  intros Hnull first later.
  destruct (getInstance_sets c1 p) as (a & Hr & Hi). fold first in Hr, Hi.
  destruct (run_keeps_instance between _ a Hi) as [Hi' Hh].
  assert (later = (on_heap a, run between (snd first))) as ->
    by (apply getInstance_when_set; exact Hi').
  cbn [fst snd]. rewrite Hh.
  assert (heap (snd first) =
            <[fresh (dom (heap p)) := mkDatabaseConnection c1]> (heap p)
          /\ a = fresh (dom (heap p))) as [Hfirst ->].
  { subst first. unfold DatabaseConnection_getInstance in *.
    rewrite Hnull in *. cbn in *. split; congruence. }
  rewrite Hfirst. split; [now rewrite Hr|]. split; [reflexivity|]. split.
  - eexists. split; [reflexivity|]. apply lookup_insert_eq.
  - intros b db Hb Hold.
    destruct (decide (b = fresh (dom (heap p)))) as [->|Hne].
    + rewrite lookup_insert_eq in Hb. injection Hb as <-.
      split; [reflexivity | intros Hc; cbn; congruence].
    + rewrite lookup_insert_ne in Hb by congruence. congruence.
Qed.

Lemma getInstance_ignores_later_string_witness :
  let first := DatabaseConnection_getInstance "mysql://localhost:3306" start in
  let later :=
    DatabaseConnection_getInstance "postgres://localhost:5432"
      (run [call_query (fst first) "SELECT * FROM users"] (snd first)) in
  fst later = fst first /\
  snd later = run [call_query (fst first) "SELECT * FROM users"] (snd first)
  /\
  (exists a : positive,
     fst later = on_heap a /\
     heap (snd later) !! a
       = Some (mkDatabaseConnection "mysql://localhost:3306")) /\
  (forall (a : positive) (db : DatabaseConnection),
     heap (snd later) !! a = Some db -> heap start !! a = None ->
     connection_string db = "mysql://localhost:3306" /\
     ("postgres://localhost:5432" <> "mysql://localhost:3306" ->
      connection_string db <> "postgres://localhost:5432")).
Proof.
  exact (getInstance_ignores_later_string start "mysql://localhost:3306"
           "postgres://localhost:5432"
           [call_query (on_heap (fresh (dom (heap start))))
              "SELECT * FROM users"]
           eq_refl).
Defined.

(** The demo: two calls with two strings, then a query through each
    pointer; one connection is made, to the first string, and both queries
    run on it. *)
Example demo_db1_db2 :
  let '(db1, p1) :=
    DatabaseConnection_getInstance "mysql://localhost:3306" start in
  let '(db2, p2) :=
    DatabaseConnection_getInstance "postgres://localhost:5432" p1 in
  db1 = db2 /\
  cout (query db2 "INSERT INTO logs VALUES ('test')"
          (query db1 "SELECT * FROM users" p2)) =
    [OStr "Database connection created to: "; OStr "mysql://localhost:3306";
     OEndl;
     OStr "Executing query on "; OStr "mysql://localhost:3306"; OStr ": ";
     OStr "SELECT * FROM users"; OEndl;
     OStr "Executing query on "; OStr "mysql://localhost:3306"; OStr ": ";
     OStr "INSERT INTO logs VALUES ('test')"; OEndl].
Proof. vm_compute. split; reflexivity. Qed.

End SingletonFacts.

Module CalculatorFacts.
Import Cxx Calculator.

Lemma factorial_loop_enough (k : nat) :
  forall (n i : Z) (result : float) (turns : nat),
    n < INT_MAX -> INT_MIN <= i ->
    n + 1 - i <= Z.of_nat k -> (k < turns)%nat ->
    exists r, factorial_loop turns n i result = Some r.
Proof.
  induction k as [|k IH]; intros n i result turns Hn Hi Hk Ht.
  - destruct turns as [|t]; [lia|]. simpl.
    destruct (Z.leb_spec i n); [lia|]. eauto.
  - destruct turns as [|t]; [lia|]. simpl.
    destruct (Z.leb_spec i n); [|eauto].
    rewrite IntFacts.int_wrap_id by lia.
    apply IH; lia.
Qed.

(** The loop of [factorial] ends within the turns it is given for every
    [n] below [INT_MAX]: the function produces an outcome there. *)
Lemma factorial_total (n : Z) : n < INT_MAX -> exists o, factorial n = Some o.
Proof.
  intros Hn. unfold factorial.
  destruct (Z.ltb_spec n 0); [eauto|].
  destruct ((n =? 0) || (n =? 1)) eqn:E; [eauto|].
  apply orb_false_iff in E as [E0 E1].
  apply Z.eqb_neq in E0, E1.
  destruct (factorial_loop_enough (Z.to_nat (n - 1)) n 2 1%float (Z.to_nat n))
    as [r Hr]; [assumption | unfold INT_MIN; lia | lia | lia |].
  rewrite Hr. eauto.
Qed.

(** C7: factorial(0) is 1, factorial(5) is 120, and on every negative
    input (so on -1) the call throws instead of returning a value. *)
Theorem factorial_spec :
  factorial 0 = Some (Returned 1%float) /\
  factorial 5 = Some (Returned 120%float) /\
  (exists e, factorial (-1) = Some (Thrown e)) /\
  (forall n : Z, n < 0 ->
     factorial n =
       Some (Thrown (runtime_error "Factorial of negative number is undefined!"))).
Proof.
  split; [reflexivity|].
  split; [reflexivity|].
  split; [eexists; reflexivity|].
  intros n Hn. unfold factorial.
  destruct (Z.ltb_spec n 0); [reflexivity|lia].
Qed.

Lemma factorial_spec_witness :
  -5 < 0 /\
  factorial (-5) =
    Some (Thrown (runtime_error "Factorial of negative number is undefined!")).
Proof.
  split; [lia|].
  exact (proj2 (proj2 (proj2 factorial_spec)) (-5) ltac:(lia)).
Defined.

End CalculatorFacts.

(** ** Facts on lists *)

Module ListFacts.

Lemma NoDup_push_back {A : Type} (l : list A) (x : A) :
  List.NoDup l -> ~ In x l -> List.NoDup (l ++ [x]).
Proof.
  induction l as [|y l IH]; cbn [app In]; intros Hnd Hx.
  - constructor; [intros []|constructor].
  - inversion Hnd as [|? ? Hy Hl]; subst.
    constructor.
    + intros H. apply in_app_iff in H as [H|[<-|[]]]; [contradiction|].
      apply Hx. now left.
    + apply IH; [assumption|]. intros H. apply Hx. now right.
Qed.

End ListFacts.

(** ** Calculator: primes, exact factorials, division *)

Module NumberFacts.
Import Cxx Calculator.

Lemma rem_zero_divide (n d : Z) :
  d <> 0 -> (Z.rem n d =? 0) = true <-> (d | n).
Proof. intros Hd. rewrite Z.eqb_eq. now apply Z.rem_divide. Qed.

Lemma no_divisor_prime (n i : Z) :
  1 < n -> 0 < i -> n < i * i -> no_divisor_below n i -> Z.prime n.
Proof.
  intros Hn Hi Hlt Hno. split; [assumption|].
  intros d Hd [q Hq].
  assert (1 < q) by nia.
  destruct (Z.lt_ge_cases d i) as [Hdi|Hdi].
  - apply (Hno d); [lia | now exists q].
  - apply (Hno q); [nia | exists d; lia].
Qed.

Lemma divisor_not_prime (n d : Z) : 1 < d < n -> (d | n) -> ~ Z.prime n.
Proof. intros Hd Hdiv [_ H]. exact (H d Hd Hdiv). Qed.

Lemma divide_multiple (n d k : Z) : (k | d) -> (d | n) -> (k | n).
Proof. intros H1 H2. now apply Z.divide_trans with d. Qed.

Lemma no_divisor_step (n i : Z) :
  5 <= i -> i mod 6 = 5 ->
  no_divisor_below n i -> ~ (i | n) -> ~ (i + 2 | n) ->
  no_divisor_below n (i + 6).
Proof.
  intros Hi Hmod Hno H0 H2 d Hd Hdiv.
  assert (~ (2 | n)) as N2 by (apply Hno; lia).
  assert (~ (3 | n)) as N3 by (apply Hno; lia).
  destruct (Z.lt_ge_cases d i) as [Hlt|Hge]; [apply (Hno d); [lia|assumption]|].
  assert (d = i \/ d = i + 1 \/ d = i + 2 \/ d = i + 3 \/ d = i + 4
          \/ d = i + 5) as [->|[->|[->|[->|[->| ->]]]]] by lia.
  - contradiction.
  - apply N2. apply divide_multiple with (i + 1); [|assumption].
    exists (3 * (i / 6) + 3). pose proof (Z.div_mod i 6). lia.
  - contradiction.
  - apply N2. apply divide_multiple with (i + 3); [|assumption].
    exists (3 * (i / 6) + 4). pose proof (Z.div_mod i 6). lia.
  - apply N3. apply divide_multiple with (i + 4); [|assumption].
    exists (2 * (i / 6) + 3). pose proof (Z.div_mod i 6). lia.
  - apply N2. apply divide_multiple with (i + 5); [|assumption].
    exists (3 * (i / 6) + 5). pose proof (Z.div_mod i 6). lia.
Qed.

Lemma isPrime_loop_correct (turns : nat) :
  forall n i : Z,
    3 < n -> n < 2147117569 ->
    5 <= i -> i mod 6 = 5 ->
    (i = 5 \/ (i - 6) * (i - 6) <= n) ->
    no_divisor_below n i ->
    Z.sqrt n - i < 6 * (Z.of_nat turns - 1) -> (1 <= turns)%nat ->
    exists b : bool,
      isPrime_loop turns n i = Some (Value b) /\ (b = true <-> Z.prime n).
Proof.
  induction turns as [|t IH]; intros n i Hn Hbound Hi Hmod Hprev Hno Hfuel Ht;
    [lia|].
  cbn [isPrime_loop].
  assert (i <= 46337) as Hsmall.
  { assert (i < 46343) by (destruct Hprev; nia).
    pose proof (Z.div_mod i 6). lia. }
  assert (i * i <= INT_MAX) as Hov by (unfold INT_MAX; nia).
  destruct (Z.ltb_spec INT_MAX (i * i)) as [?|_]; [lia|].
  destruct (Z.leb_spec (i * i) n) as [Hle|Hgt].
  - destruct ((Z.rem n i =? 0) || (Z.rem n (i + 2) =? 0)) eqn:Htest.
    + exists false. split; [reflexivity|].
      split; [discriminate|]. intros Hp. exfalso.
      apply orb_true_iff in Htest as [H|H]; apply rem_zero_divide in H;
        try lia.
      * apply (divisor_not_prime n i); [nia|assumption|assumption].
      * apply (divisor_not_prime n (i + 2)); [nia|assumption|assumption].
    + apply orb_false_iff in Htest as [H0 H2].
      assert (~ (i | n)) as N0
        by (rewrite <- rem_zero_divide by lia; congruence).
      assert (~ (i + 2 | n)) as N2
        by (rewrite <- rem_zero_divide by lia; congruence).
      assert (i <= Z.sqrt n) as Hsq by (apply Z.sqrt_le_square; lia).
      apply IH; [lia | lia | lia | | | | lia | lia].
      * rewrite <- Z.add_mod_idemp_l by lia. now rewrite Hmod.
      * right. replace (i + 6 - 6) with i by lia. assumption.
      * now apply no_divisor_step.
  - exists true. split; [reflexivity|]. split; [|reflexivity].
    intros _. apply (no_divisor_prime n i); try assumption; lia.
Qed.

(** [isPrime] is right wherever it is defined: for every [n] below
    46337 * 46337 = 2147117569 (negative numbers, 0 and 1 included) no
    product [i * i] overflows, and the result is [true] exactly when [n] is
    prime. *)
Theorem isPrime_correct (n : Z) :
  n < 2147117569 ->
  exists b : bool, isPrime n = Some (Value b) /\ (b = true <-> Z.prime n).
Proof.
  intros Hbound. unfold isPrime.
  destruct (Z.leb_spec n 1) as [H1|H1].
  { exists false. split; [reflexivity|]. split; [discriminate|].
    intros [Hp _]. lia. }
  destruct (Z.leb_spec n 3) as [H3|H3].
  { exists true. split; [reflexivity|]. split; [|reflexivity]. intros _.
    assert (n = 2 \/ n = 3) as [-> | ->] by lia;
      [apply Z.prime_2 | apply Z.prime_3]. }
  destruct ((Z.rem n 2 =? 0) || (Z.rem n 3 =? 0)) eqn:Htest.
  { exists false. split; [reflexivity|]. split; [discriminate|].
    intros Hp. exfalso.
    apply orb_true_iff in Htest as [H|H]; apply rem_zero_divide in H;
      try lia.
    - apply (divisor_not_prime n 2); [lia|assumption|assumption].
    - apply (divisor_not_prime n 3); [lia|assumption|assumption]. }
  apply orb_false_iff in Htest as [H2 H3'].
  assert (~ (2 | n)) as N2 by (rewrite <- rem_zero_divide by lia; congruence).
  assert (~ (3 | n)) as N3 by (rewrite <- rem_zero_divide by lia; congruence).
  assert (2 <= Z.sqrt n) as Hsq by (apply Z.sqrt_le_square; lia).
  apply isPrime_loop_correct; [lia | lia | lia | reflexivity | now left |
                               | lia | lia].
  - intros d Hd Hdiv.
    assert (d = 2 \/ d = 3 \/ d = 4) as [->|[->| ->]] by lia;
      try contradiction.
    apply N2. apply divide_multiple with 4; [now exists 2 | assumption].
Qed.


(** [factorial] is exact up to 22: for [n] from 0 to 22 the double
    returned is the integer n!, and for 23 it is not (23! is not a double). *)
Theorem factorial_exact_upto_22 :
  (forall n : Z, 0 <= n <= 22 ->
     exists r : float,
       factorial n = Some (Returned r) /\
       integer_value r = Some (Zfact (Z.to_nat n))) /\
  (exists r : float,
     factorial 23 = Some (Returned r) /\
     integer_value r <> Some (Zfact 23)).
Proof.
  split.
  - intros n Hn.
    assert (exists k : nat, (k <= 22)%nat /\ n = Z.of_nat k) as (k & Hk & ->)
      by (exists (Z.to_nat n); lia).
    do 23 (destruct k as [|k];
           [eexists; split; [reflexivity | vm_compute; reflexivity]|]).
    lia.
  - eexists. split; [reflexivity|]. vm_compute. discriminate.
Qed.

Lemma factorial_exact_upto_22_witness :
  exists r : float,
    factorial 20 = Some (Returned r) /\
    integer_value r = Some 2432902008176640000.
Proof.
  exact (proj1 factorial_exact_upto_22 20 ltac:(lia)).
Defined.

Lemma eqb_zero_iff (b : float) :
  PrimFloat.eqb b 0 = true <-> b = 0%float \/ b = (-0)%float.
Proof.
  rewrite FloatAxioms.eqb_spec. split.
  - intros H. destruct (Prim2SF b) as [[|]| | |] eqn:E; try discriminate H.
    + right. apply Prim2SF_inj. rewrite E. reflexivity.
    + left. apply Prim2SF_inj. rewrite E. reflexivity.
    + destruct s; discriminate H.
    + destruct s; discriminate H.
  - intros [-> | ->]; reflexivity.
Qed.

(** [divide] throws "Division by zero!" exactly for the two zeros, 0.0
    and -0.0; for any other divisor, a NaN or an infinity included, it
    returns the quotient. *)
Theorem divide_throws_iff (a b : float) :
  (divide a b = Thrown (runtime_error "Division by zero!") <->
     b = 0%float \/ b = (-0)%float) /\
  (b <> 0%float -> b <> (-0)%float ->
     divide a b = Returned (PrimFloat.div a b)).
Proof.
  pose proof (eqb_zero_iff b) as H. unfold divide.
  destruct (PrimFloat.eqb b 0).
  - split; [tauto|]. intros N0 N1. destruct (proj1 H eq_refl); contradiction.
  - split; [|reflexivity]. split; [discriminate|].
    intros Hz. apply H in Hz. discriminate.
Qed.

Lemma divide_throws_iff_witness :
  divide 10 nan = Returned (PrimFloat.div 10 nan) /\
  divide 10 (-0) = Thrown (runtime_error "Division by zero!").
Proof.
  split.
  - apply (proj2 (divide_throws_iff 10 nan)); vm_compute; discriminate.
  - apply (proj1 (divide_throws_iff 10 (-0))). now right.
Defined.


Lemma isPrime_correct_witness :
  exists b : bool, isPrime 97 = Some (Value b) /\ (b = true <-> Z.prime 97).
Proof. exact (isPrime_correct 97 ltac:(lia)). Defined.

(** Beyond that bound the product can overflow: for the prime 2147483647,
    the largest [int], the loop reaches [i = 46343], whose square is not an
    [int]. *)
Example isPrime_INT_MAX_overflows : isPrime INT_MAX = Some SignedOverflow.
Proof. vm_compute. reflexivity. Qed.

End NumberFacts.

(** ** BankAccount: what every call keeps *)

Module AccountFacts.
Import Cxx BasicConcepts BankAccountFacts.
#[local] Open Scope string_scope.

(** A member function that throws has changed nothing: neither the
    account nor [std::cout]. *)
Theorem throwing_call_changes_nothing (c : call) (s s' : state)
  (e : exception) :
  invoke c s = (Thrown e, s') -> s' = s.
Proof.
  destruct s as [a out].
  destruct c as [| |p|x p|x p|p q|p|p]; cbn [invoke]; run_member.
  - discriminate.
  - destruct (4 <=? String.length (accountNumber a))%nat; discriminate.
  - destruct (isActive a); cbn [negb]; [|now intros [= _ <-]].
    destruct (validatePin a p); cbn [negb]; [discriminate|now intros [= _ <-]].
  - destruct (isActive a); cbn [negb]; [|now intros [= _ <-]].
    destruct (validatePin a p); cbn [negb]; [|now intros [= _ <-]].
    destruct (PrimFloat.leb x 0); [now intros [= _ <-]|discriminate].
  - destruct (isActive a); cbn [negb]; [|now intros [= _ <-]].
    destruct (validatePin a p); cbn [negb]; [|now intros [= _ <-]].
    destruct (PrimFloat.leb x 0); [now intros [= _ <-]|].
    destruct (dgt x (balance a)); discriminate.
  - destruct (validatePin a p); cbn [negb]; [|discriminate].
    destruct (String.length q =? 4)%nat; discriminate.
  - destruct (validatePin a p); cbn [negb]; [discriminate|now intros [= _ <-]].
  - destruct (validatePin a p); cbn [negb]; [discriminate|now intros [= _ <-]].
Qed.

Lemma throwing_call_changes_nothing_witness :
  let s := mkState (mkBankAccount "John Doe" "1234567890" 1000 "1234" true)
             [OStr "Bank account created for "; OStr "John Doe"; OEndl] in
  snd (invoke (call_deposit (-5) "1234") s) = s.
Proof.
  intros s.
  exact (throwing_call_changes_nothing (call_deposit (-5) "1234") s
           (snd (invoke (call_deposit (-5) "1234") s))
           (invalid_argument "Deposit amount must be positive") eq_refl).
Defined.


Ltac same_account := split; [assumption | split; reflexivity].

Lemma invoke_keeps_identity (c : call) (s : state) :
  well_formed (self s) ->
  well_formed (self (snd (invoke c s))) /\
  accountHolder (self (snd (invoke c s))) = accountHolder (self s) /\
  accountNumber (self (snd (invoke c s))) = accountNumber (self s).
Proof.
  intros Hwf. destruct s as [a out]. cbn [self] in Hwf.
  destruct c as [| |p|x p|x p|p q|p|p]; cbn [invoke]; run_member.
  - same_account.
  - destruct (4 <=? String.length (accountNumber a))%nat; same_account.
  - destruct (isActive a); cbn [negb self snd]; [|same_account].
    destruct (validatePin a p); same_account.
  - destruct (isActive a); cbn [negb self snd]; [|same_account].
    destruct (validatePin a p); cbn [negb self snd]; [|same_account].
    destruct (PrimFloat.leb x 0); same_account.
  - destruct (isActive a); cbn [negb self snd]; [|same_account].
    destruct (validatePin a p); cbn [negb self snd]; [|same_account].
    destruct (PrimFloat.leb x 0); cbn [self snd]; [same_account|].
    destruct (dgt x (balance a)); same_account.
  - destruct (validatePin a p); cbn [negb self snd]; [|same_account].
    destruct (Nat.eqb_spec (String.length q) 4) as [L|L];
      cbn [negb self snd]; [|same_account].
    destruct Hwf as (H1 & H2 & _). now repeat split.
  - destruct (validatePin a p); same_account.
  - destruct (validatePin a p); same_account.
Qed.

(** What the constructor checks stays true: on an account it returned, after
    any sequence of public calls, the holder and the account number are the
    ones given at construction (non-empty, at least 10 characters) and the
    PIN has exactly 4 characters. *)
Theorem account_identity_kept (holder accNum userPin : string)
  (initialBalance : float) (out out' : ostream) (a : BankAccount)
  (cs : list call) :
  constructor holder accNum userPin initialBalance out = (Returned a, out') ->
  let a' := self (invoke_all cs (mkState a out')) in
  accountHolder a' = holder /\ holder <> "" /\
  accountNumber a' = accNum /\ (10 <= String.length accNum)%nat /\
  String.length (pin a') = 4%nat.
Proof.
  intros Hc.
  assert (a = mkBankAccount holder accNum initialBalance userPin true
          /\ well_formed a) as [Ha Hwf].
  { revert Hc. unfold constructor, well_formed.
    cbv beta iota delta [bind ret throw throw_if modify].
    destruct holder as [|h holder']; [discriminate|].
    cbn [String.length Nat.eqb].
    destruct (Nat.ltb_spec (String.length accNum) 10); [discriminate|].
    destruct (Nat.eqb_spec (String.length userPin) 4); [|discriminate].
    cbn [negb].
    destruct (PrimFloat.ltb initialBalance 0); [discriminate|].
    intros [= <- _]. cbn. repeat split; try assumption. discriminate. }
  assert (forall s : state, well_formed (self s) ->
            well_formed (self (invoke_all cs s)) /\
            accountHolder (self (invoke_all cs s)) = accountHolder (self s) /\
            accountNumber (self (invoke_all cs s)) = accountNumber (self s))
    as Hall.
  { induction cs as [|c cs IH]; intros s Hs; cbn [invoke_all];
      [same_account|].
    destruct (invoke_keeps_identity c s Hs) as (H1 & H2 & H3).
    destruct (IH _ H1) as (H4 & H5 & H6).
    split; [assumption | split; congruence]. }
  destruct (Hall (mkState a out') Hwf) as ((H1 & H2 & H3) & H4 & H5).
  cbn zeta. cbn [self] in H4, H5. rewrite H4, H5. subst a. cbn in *.
  destruct Hwf as (W1 & W2 & W3). now repeat split.
Qed.

Lemma account_identity_kept_witness :
  let a := mkBankAccount "John Doe" "1234567890" 1000 "1234" true in
  let out := [OStr "Bank account created for "; OStr "John Doe"; OEndl] in
  let a' :=
    self (invoke_all [call_changePin "1234" "987"; call_changePin "1234" "9876"]
            (mkState a out)) in
  accountHolder a' = "John Doe" /\ "John Doe" <> "" /\
  accountNumber a' = "1234567890" /\
  (10 <= String.length "1234567890")%nat /\
  String.length (pin a') = 4%nat.
Proof.
  exact (account_identity_kept "John Doe" "1234567890" "1234" 1000 []
           [OStr "Bank account created for "; OStr "John Doe"; OEndl]
           (mkBankAccount "John Doe" "1234567890" 1000 "1234" true)
           [call_changePin "1234" "987"; call_changePin "1234" "9876"]
           eq_refl).
Defined.

(** A call made with a PIN that is not the account's leaves the account as
    it was, and does not succeed: it throws, or ([changePin]) returns
    [false]. *)
Theorem wrong_pin_changes_nothing (c : call) (p : string) (s : state) :
  pin_argument c = Some p -> p <> pin (self s) ->
  self (snd (invoke c s)) = self s /\
  (is_thrown (fst (invoke c s)) = true \/
   fst (invoke c s) = Returned (VBool false)).
Proof.
  intros Hc Hp. apply validatePin_false in Hp. destruct s as [a out].
  cbn [self] in *.
  destruct c as [| |q|x q|x q|q r|q|q]; cbn [pin_argument] in Hc;
    try discriminate; injection Hc as ->; cbn [invoke]; run_member;
    rewrite ?Hp; cbn [negb].
  - destruct (isActive a); cbn; auto.
  - destruct (isActive a); cbn; auto.
  - destruct (isActive a); cbn; auto.
  - cbn. auto.
  - cbn. auto.
  - cbn. auto.
Qed.

Lemma wrong_pin_changes_nothing_witness :
  let s := mkState (mkBankAccount "John Doe" "1234567890" 1000 "1234" true)
             [] in
  self (snd (invoke (call_withdraw 200 "0000") s)) = self s /\
  (is_thrown (fst (invoke (call_withdraw 200 "0000") s)) = true \/
   fst (invoke (call_withdraw 200 "0000") s) = Returned (VBool false)).
Proof.
  intros s.
  refine (wrong_pin_changes_nothing (call_withdraw 200 "0000") "0000" s
            eq_refl _).
  cbn. discriminate.
Defined.

(** A deactivated account refuses the money operations, whatever the PIN
    and the amount: [getBalance], [deposit] and [withdraw] throw "Account is
    not active" and change nothing. Deactivating an active account and then
    activating it, both with its PIN, gives the account back as it was. *)
Theorem inactive_account_blocked (s : state) :
  (isActive (self s) = false ->
   forall (x : float) (p : string),
     getBalance p s = (Thrown (runtime_error "Account is not active"), s) /\
     deposit x p s = (Thrown (runtime_error "Account is not active"), s) /\
     withdraw x p s = (Thrown (runtime_error "Account is not active"), s)) /\
  (isActive (self s) = true ->
   isActive (self (snd (deactivateAccount (pin (self s)) s))) = false /\
   self (snd (activateAccount (pin (self s))
                (snd (deactivateAccount (pin (self s)) s)))) = self s).
Proof.
  destruct s as [a out]. cbn [self]. split.
  - intros Ha x p. run_member. rewrite Ha. now repeat split.
  - intros Ha. run_member.
    assert (validatePin a (pin a) = true) as V by now apply validatePin_true.
    rewrite V. cbn [negb self snd isActive].
    split; [reflexivity|].
    unfold validatePin in *. cbn [pin]. rewrite V. cbn.
    destruct a; cbn in *. now subst.
Qed.

Lemma inactive_account_blocked_witness :
  let s := mkState (mkBankAccount "John Doe" "1234567890" 1000 "1234" false)
             [] in
  withdraw 10 "1234" s = (Thrown (runtime_error "Account is not active"), s).
Proof.
  intros s.
  exact (proj2 (proj2 (proj1 (inactive_account_blocked s) eq_refl 10%float
                         "1234"))).
Defined.


Lemma substring_all (s : string) : substring 0 (String.length s) s = s.
Proof.
  induction s as [|c s IH]; cbn [substring String.length];
    [reflexivity | now rewrite IH].
Qed.

Lemma substring_suffix (k : nat) :
  forall s : string,
    (k <= String.length s)%nat ->
    exists hidden shown : string,
      s = hidden ++ shown /\ String.length hidden = k /\
      String.length shown = (String.length s - k)%nat /\
      substring k (String.length s - k) s = shown.
Proof.
  induction k as [|k IH]; intros s Hk.
  - exists "", s. rewrite Nat.sub_0_r. repeat split. apply substring_all.
  - destruct s as [|c s]; cbn [String.length] in *; [lia|].
    destruct (IH s) as (hidden & shown & Hs & Hh & Hl & Hsub); [lia|].
    exists (String c hidden), shown. cbn [String.length substring].
    change (String c hidden ++ shown) with (String c (hidden ++ shown)).
    repeat split; try congruence; try lia.
    replace (S (String.length s) - S k)%nat with (String.length s - k)%nat
      by lia.
    assumption.
Qed.

(** The masked account number shows the last four characters of the number
    and nothing else of it: four stars followed by those four characters
    (eight characters in all) when the number has at least four, and four
    stars alone otherwise. The call changes nothing. *)
Theorem masked_number_shows_last_four (s : state) :
  ((4 <= String.length (accountNumber (self s)))%nat ->
   exists hidden shown : string,
     accountNumber (self s) = hidden ++ shown /\
     String.length shown = 4%nat /\
     getMaskedAccountNumber s = (Returned ("****" ++ shown), s)) /\
  ((String.length (accountNumber (self s)) < 4)%nat ->
   getMaskedAccountNumber s = (Returned "****", s)).
Proof.
  destruct s as [a out]. cbn [self]. run_member.
  destruct (Nat.leb_spec 4 (String.length (accountNumber a))) as [H|H].
  - split; [|lia]. intros _.
    destruct (substring_suffix (String.length (accountNumber a) - 4)
                (accountNumber a))
      as (hidden & shown & Hs & _ & Hl & Hsub); [lia|].
    exists hidden, shown.
    replace (String.length (accountNumber a)
             - (String.length (accountNumber a) - 4))%nat with 4%nat
      in Hl, Hsub by lia.
    rewrite Hsub. now repeat split.
  - split; [lia|]. reflexivity.
Qed.

Lemma masked_number_shows_last_four_witness :
  let s := mkState (mkBankAccount "John Doe" "1234567890" 1000 "1234" true)
             [] in
  exists hidden shown : string,
    "1234567890" = hidden ++ shown /\
    String.length shown = 4%nat /\
    getMaskedAccountNumber s = (Returned ("****" ++ shown), s).
Proof.
  intros s.
  refine (proj1 (masked_number_shows_last_four s) _). cbn. lia.
Defined.

End AccountFacts.

(** ** Employee *)

Module EmployeeFacts.
Import Cxx BasicConcepts ListFacts.
#[local] Open Scope string_scope.

Ltac run_employee :=
  cbv beta iota delta
    [employee_invoke updateDepartment increaseSalary addExperience addSkill
     deactivate activate employee_print update bind ret throw throw_if
     modify];
  cbn [employee employee_cout fst snd].

Lemma skill_exists_In (skill : string) (existing : list string) :
  skill_exists skill existing = true <-> In skill existing.
Proof.
  induction existing as [|k rest IH]; cbn [skill_exists In].
  - split; [discriminate | contradiction].
  - destruct (String.eqb_spec k skill) as [->|Hne].
    + split; auto.
    + rewrite IH. split; [auto | intros [H|H]; [contradiction|assumption]].
Qed.

Lemma constructor_valid (fName lName dept : string) (sal : float) (exp : Z)
  (st st' : statics) (e : Employee) :
  Employee_constructor fName lName dept sal exp st = (Returned e, st') ->
  employee_valid e /\ employeeActive e = true /\
  employeeId e = int_wrap (nextEmployeeId st + 1).
Proof.
  unfold Employee_constructor, employee_valid.
  destruct (isValidName fName) eqn:Hf; cbn [negb orb]; [|discriminate].
  destruct (isValidName lName) eqn:Hl; cbn [negb]; [|discriminate].
  destruct (isValidSalary sal) eqn:Hs; cbn [negb]; [|discriminate].
  destruct (isValidExperience exp) eqn:He; cbn [negb]; [|discriminate].
  intros [= <- _]. cbn. repeat split; auto. constructor.
Qed.

Lemma employee_invoke_valid (c : employee_call) (s : employee_state) :
  employee_valid (employee s) ->
  employee_valid (employee (snd (employee_invoke c s))) /\
  employeeId (employee (snd (employee_invoke c s))) = employeeId (employee s)
  /\ firstName (employee (snd (employee_invoke c s))) = firstName (employee s)
  /\ lastName (employee (snd (employee_invoke c s))) = lastName (employee s).
Proof.
  intros Hv. destruct s as [e out]. cbn [employee] in Hv.
  assert (employee_valid e /\ employeeId e = employeeId e /\
          firstName e = firstName e /\ lastName e = lastName e) as Hsame
    by (split; [assumption | repeat split]).
  destruct Hv as (V1 & V2 & V3 & V4 & V5 & V6).
  destruct c as [d|x|y|k| |]; run_employee.
  - destruct (employeeActive e); cbn [negb employee snd]; [|exact Hsame].
    unfold employee_valid. cbn. now repeat split.
  - destruct (employeeActive e); cbn [negb employee snd]; [|exact Hsame].
    destruct (PrimFloat.ltb x 0 || dgt x 100); cbn [employee snd];
      [exact Hsame|].
    match goal with
    | |- context [negb (isValidSalary ?t)] =>
        destruct (isValidSalary t) eqn:Hnew
    end; cbn [negb employee snd]; [|exact Hsame].
    unfold employee_valid. cbn. now repeat split.
  - destruct (employeeActive e); cbn [negb employee snd]; [|exact Hsame].
    destruct (y <? 0)%Z; cbn [employee snd]; [exact Hsame|].
    match goal with
    | |- context [negb (isValidExperience ?t)] =>
        destruct (isValidExperience t) eqn:Hnew
    end; cbn [negb employee snd]; [|exact Hsame].
    unfold employee_valid. cbn. now repeat split.
  - destruct (employeeActive e); cbn [negb employee snd]; [|exact Hsame].
    destruct (Nat.eqb_spec (String.length k) 0) as [L|L]; cbn [employee snd];
      [exact Hsame|].
    destruct (skill_exists k (skills e)) eqn:Hex; cbn [employee snd];
      [exact Hsame|].
    assert (~ In k (skills e)) as Hnot
      by (intros H; apply skill_exists_In in H; congruence).
    unfold employee_valid. cbn. repeat split; try assumption.
    + now apply NoDup_push_back.
    + intros H. apply in_app_iff in H as [H|[E|[]]]; [contradiction|].
      subst k. now cbn in L.
  - unfold employee_valid. cbn. now repeat split.
  - unfold employee_valid. cbn. now repeat split.
Qed.


Lemma employee_invoke_all_valid (cs : list employee_call) :
  forall s : employee_state,
    employee_valid (employee s) ->
    employee_valid (employee (employee_invoke_all cs s)) /\
    employeeId (employee (employee_invoke_all cs s)) = employeeId (employee s)
    /\ firstName (employee (employee_invoke_all cs s))
       = firstName (employee s)
    /\ lastName (employee (employee_invoke_all cs s)) = lastName (employee s).
Proof.
  induction cs as [|c cs IH]; intros s Hv; cbn [employee_invoke_all].
  - split; [assumption | repeat split].
  - destruct (employee_invoke_valid c s Hv) as (H1 & H2 & H3 & H4).
    destruct (IH _ H1) as (H5 & H6 & H7 & H8).
    split; [assumption | repeat split; congruence].
Qed.

(** The validations of the class hold for good: on an employee a
    constructor call returned, after any sequence of calls of the writing
    member functions, the salary is between 0 and 1000000 (so it is a
    number), the experience is between 0 and 50 years, no skill is listed
    twice and none is empty; the id and the two names are those of the
    construction, the id being the counter advanced by one in [int]. *)
Theorem employee_always_valid (fName lName dept : string) (sal : float)
  (exp : Z) (st st' : statics) (e : Employee) (cs : list employee_call)
  (out : ostream) :
  Employee_constructor fName lName dept sal exp st = (Returned e, st') ->
  let e' := employee (employee_invoke_all cs (mkEmployeeState e out)) in
  PrimFloat.leb 0 (salary e') = true /\
  PrimFloat.leb (salary e') 1000000 = true /\
  0 <= yearsOfExperience e' <= 50 /\
  List.NoDup (skills e') /\ ~ In "" (skills e') /\
  employeeId e' = int_wrap (nextEmployeeId st + 1) /\
  firstName e' = fName /\ lastName e' = lName.
Proof.
  intros Hc e'.
  destruct (constructor_valid _ _ _ _ _ _ _ _ Hc) as (Hv & _ & Hid).
  destruct (employee_invoke_all_valid cs (mkEmployeeState e out) Hv)
    as ((_ & _ & V3 & V4 & V5 & V6) & H2 & H3 & H4).
  fold e' in V3, V4, V5, V6, H2, H3, H4. cbn [employee] in H2, H3, H4.
  unfold isValidSalary in V3. apply andb_true_iff in V3 as [S1 S2].
  unfold isValidExperience in V4. apply andb_true_iff in V4 as [Y1 Y2].
  apply Z.leb_le in Y1, Y2.
  assert (firstName e = fName /\ lastName e = lName) as [F L].
  { revert Hc. unfold Employee_constructor.
    destruct (negb (isValidName fName) || negb (isValidName lName));
      [discriminate|].
    destruct (negb (isValidSalary sal)); [discriminate|].
    destruct (negb (isValidExperience exp)); [discriminate|].
    intros [= <- _]. now split. }
  repeat split; try assumption; congruence.
Qed.

Lemma employee_always_valid_witness :
  let e := mkEmployee 1001 "Alice" "Johnson" "Engineering" 75000 3 true [] in
  let e' :=
    employee
      (employee_invoke_all
         [call_increaseSalary 10; call_addExperience 60; call_addSkill "C++";
          call_addSkill "C++"; call_increaseSalary nan]
         (mkEmployeeState e [])) in
  PrimFloat.leb 0 (salary e') = true /\
  PrimFloat.leb (salary e') 1000000 = true /\
  0 <= yearsOfExperience e' <= 50 /\
  List.NoDup (skills e') /\ ~ In "" (skills e') /\
  employeeId e' = int_wrap (nextEmployeeId statics_at_start + 1) /\
  firstName e' = "Alice" /\ lastName e' = "Johnson".
Proof.
  exact (employee_always_valid "Alice" "Johnson" "Engineering" 75000 3
           statics_at_start
           (snd (Employee_constructor "Alice" "Johnson" "Engineering" 75000 3
                   statics_at_start))
           (mkEmployee 1001 "Alice" "Johnson" "Engineering" 75000 3 true [])
           [call_increaseSalary 10; call_addExperience 60;
            call_addSkill "C++"; call_addSkill "C++"; call_increaseSalary nan]
           [] eq_refl).
Defined.

(** The writing member functions are guarded and all-or-nothing: on a
    deactivated employee, [updateDepartment], [increaseSalary],
    [addExperience] and [addSkill] throw "Cannot update inactive employee"
    whatever their argument; and a call that throws, whichever it is, has
    changed neither the employee nor [std::cout]. *)
Theorem employee_updates_guarded (s : employee_state) :
  (employeeActive (employee s) = false ->
   forall (d k : string) (x : float) (y : Z),
     updateDepartment d s = (Thrown inactive_employee, s) /\
     increaseSalary x s = (Thrown inactive_employee, s) /\
     addExperience y s = (Thrown inactive_employee, s) /\
     addSkill k s = (Thrown inactive_employee, s)) /\
  (forall (c : employee_call) (ex : exception) (s' : employee_state),
     employee_invoke c s = (Thrown ex, s') -> s' = s).
Proof.
  destruct s as [e out]. cbn [employee]. split.
  - intros Ha d k x y. run_employee. rewrite Ha. now repeat split.
  - intros c ex s'. destruct c as [d|x|y|k| |]; run_employee.
    + destruct (employeeActive e); cbn [negb];
        [discriminate | now intros [= _ <-]].
    + destruct (employeeActive e); cbn [negb]; [|now intros [= _ <-]].
      destruct (PrimFloat.ltb x 0 || dgt x 100); [now intros [= _ <-]|].
      match goal with
      | |- context [negb (isValidSalary ?t)] => destruct (isValidSalary t)
      end; cbn [negb]; [discriminate | now intros [= _ <-]].
    + destruct (employeeActive e); cbn [negb]; [|now intros [= _ <-]].
      destruct (y <? 0)%Z; [now intros [= _ <-]|].
      match goal with
      | |- context [negb (isValidExperience ?t)] =>
          destruct (isValidExperience t)
      end; cbn [negb]; [discriminate | now intros [= _ <-]].
    + destruct (employeeActive e); cbn [negb]; [|now intros [= _ <-]].
      destruct (String.length k =? 0)%nat; [now intros [= _ <-]|].
      destruct (skill_exists k (skills e)); discriminate.
    + discriminate.
    + discriminate.
Qed.

Lemma employee_updates_guarded_witness :
  let s := mkEmployeeState
             (mkEmployee 1001 "Alice" "Johnson" "Engineering" 75000 3 false
                ["C++"]) [] in
  addSkill "Python" s = (Thrown inactive_employee, s).
Proof.
  intros s.
  exact (proj2 (proj2 (proj2 (proj1 (employee_updates_guarded s) eq_refl
                                "" "Python" 0%float 0)))).
Defined.

Lemma addSkill_new (e : Employee) (out : ostream) (k : string) :
  employeeActive e = true -> k <> "" -> skill_exists k (skills e) = false ->
  addSkill k (mkEmployeeState e out) =
    (Returned tt,
     mkEmployeeState (push_back_skill k e)
       (out ++ [OStr "Skill '"; OStr k; OStr "' added"; OEndl])%list).
Proof.
  intros Ha Hk Hex.
  assert ((String.length k =? 0)%nat = false) as L
    by (destruct k; [contradiction | reflexivity]).
  run_employee. now rewrite Ha, L, Hex.
Qed.

Lemma addSkill_known (e : Employee) (out : ostream) (k : string) :
  employeeActive e = true -> k <> "" -> skill_exists k (skills e) = true ->
  addSkill k (mkEmployeeState e out) =
    (Returned tt,
     mkEmployeeState e
       (out ++ [OStr "Skill '"; OStr k; OStr "' already exists"; OEndl])%list).
Proof.
  intros Ha Hk Hex.
  assert ((String.length k =? 0)%nat = false) as L
    by (destruct k; [contradiction | reflexivity]).
  run_employee. now rewrite Ha, L, Hex.
Qed.

(** [addSkill] keeps the list a set: on an active employee, after
    [addSkill(k)] with [k] not empty the skill is listed, the skills listed
    before are still there in the same order (the new one, if any, is last),
    and adding the same skill again changes nothing of the employee. *)
Theorem addSkill_idempotent (s : employee_state) (k : string) :
  employeeActive (employee s) = true -> k <> "" ->
  let s1 := snd (addSkill k s) in
  In k (skills (employee s1)) /\
  (skills (employee s1) = skills (employee s) \/
   skills (employee s1) = skills (employee s) ++ [k])%list /\
  employee (snd (addSkill k s1)) = employee s1.
Proof.
  intros Ha Hk. destruct s as [e out]. cbn [employee] in Ha. cbn zeta.
  destruct (skill_exists k (skills e)) eqn:Hex.
  - rewrite (addSkill_known e out k Ha Hk Hex). cbn [snd employee].
    rewrite (addSkill_known e _ k Ha Hk Hex). cbn [snd employee].
    split; [now apply skill_exists_In | split; [now left | reflexivity]].
  - rewrite (addSkill_new e out k Ha Hk Hex). cbn [snd employee].
    assert (skill_exists k (skills (push_back_skill k e)) = true) as Hex'.
    { apply skill_exists_In. cbn. apply in_app_iff. right. now left. }
    rewrite (addSkill_known (push_back_skill k e) _ k Ha Hk Hex').
    cbn [snd employee push_back_skill skills].
    split; [apply in_app_iff; right; now left | split; [now right|]].
    reflexivity.
Qed.

Lemma addSkill_idempotent_witness :
  let s := mkEmployeeState
             (mkEmployee 1001 "Alice" "Johnson" "Engineering" 75000 3 true
                ["C++"]) [] in
  let s1 := snd (addSkill "Python" s) in
  In "Python" (skills (employee s1)) /\
  (skills (employee s1) = skills (employee s) \/
   skills (employee s1) = skills (employee s) ++ ["Python"])%list /\
  employee (snd (addSkill "Python" s1)) = employee s1.
Proof.
  intros s.
  refine (addSkill_idempotent s "Python" eq_refl _). discriminate.
Defined.

Lemma constructor_counter (fName lName dept : string) (sal : float)
  (exp : Z) (st : statics) :
  nextEmployeeId (snd (Employee_constructor fName lName dept sal exp st)) =
    int_wrap (nextEmployeeId st + 1).
Proof.
  unfold Employee_constructor.
  destruct (negb _ || negb _); [reflexivity|].
  destruct (negb (isValidSalary _)); [reflexivity|].
  destruct (negb (isValidExperience _)); reflexivity.
Qed.

Lemma hire_all_ids_above (hs : list hiring) :
  forall st : statics,
    INT_MIN <= nextEmployeeId st ->
    nextEmployeeId st + Z.of_nat (length hs) <= INT_MAX ->
    Forall (fun e => nextEmployeeId st < employeeId e) (hire_all hs st) /\
    StronglySorted Z.lt (map employeeId (hire_all hs st)).
Proof.
  induction hs as [|h hs IH]; intros st Hlo Hhi; cbn [hire_all].
  - split; constructor.
  - cbn [length] in Hhi.
    pose proof (constructor_counter (hire_first h) (hire_last h) (hire_dept h)
                  (hire_salary h) (hire_exp h) st) as Hn.
    rewrite IntFacts.int_wrap_id in Hn by lia.
    destruct (Employee_constructor _ _ _ _ _ st) as [[e|ex] st'] eqn:Hc;
      cbn [snd] in Hn.
    + destruct (constructor_valid _ _ _ _ _ _ _ _ Hc) as (_ & _ & Hid).
      rewrite IntFacts.int_wrap_id in Hid by lia.
      destruct (IH st') as [Hall Hsorted]; [lia | lia |]. split.
      * constructor; [lia|].
        eapply List.Forall_impl; [|exact Hall]. cbn. intros a Ha. lia.
      * cbn [map]. constructor; [assumption|].
        apply List.Forall_map. eapply List.Forall_impl; [|exact Hall].
        cbn. intros a Ha. lia.
    + destruct (IH st') as [Hall Hsorted]; [lia | lia |].
      split; [|assumption].
      eapply List.Forall_impl; [|exact Hall]. cbn. intros a Ha. lia.
Qed.

(** Employee ids are unique while the counter stays an [int]: every
    constructor call takes the next id, also one that throws (its id is
    then never used); so the employees constructed by a sequence of
    constructor calls that does not take the counter beyond [INT_MAX] have
    strictly increasing ids, all above the counter the sequence started
    from. Beyond [INT_MAX] the ids do not increase: from the counter
    [INT_MAX - 1], two constructions get the ids [INT_MAX] and [INT_MIN]. *)
Theorem employee_ids_increase (hs : list hiring) (st : statics) :
  (forall h : hiring,
     nextEmployeeId
       (snd (Employee_constructor (hire_first h) (hire_last h) (hire_dept h)
               (hire_salary h) (hire_exp h) st)) =
     int_wrap (nextEmployeeId st + 1)) /\
  (INT_MIN <= nextEmployeeId st ->
   nextEmployeeId st + Z.of_nat (length hs) <= INT_MAX ->
   StronglySorted Z.lt (map employeeId (hire_all hs st)) /\
   Forall (fun e => nextEmployeeId st < employeeId e) (hire_all hs st)) /\
  map employeeId
    (hire_all [mkHiring "Alice" "Johnson" "Engineering" 75000 3;
               mkHiring "Bob" "Smith" "Marketing" 65000 2]
       (mkStatics (INT_MAX - 1) [])) = [INT_MAX; INT_MIN].
Proof.
  split; [|split; [|reflexivity]].
  - intros h. apply constructor_counter.
  - intros Hlo Hhi. split; now apply hire_all_ids_above.
Qed.

Lemma employee_ids_increase_witness :
  let hs := [mkHiring "Alice" "Johnson" "Engineering" 75000 3;
             mkHiring "" "Nobody" "Marketing" 1 1;
             mkHiring "Bob" "Smith" "Marketing" 65000 2] in
  StronglySorted Z.lt (map employeeId (hire_all hs statics_at_start)) /\
  Forall (fun e => nextEmployeeId statics_at_start < employeeId e)
    (hire_all hs statics_at_start).
Proof.
  intros hs.
  apply (proj1 (proj2 (employee_ids_increase hs statics_at_start)));
    vm_compute; discriminate.
Defined.

(** Three constructor calls, the second one with an empty name: the ids
    given are 1001 and 1003. *)
Example ids_skip_failed_construction :
  map employeeId
    (hire_all [mkHiring "Alice" "Johnson" "Engineering" 75000 3;
               mkHiring "" "Nobody" "Marketing" 1 1;
               mkHiring "Bob" "Smith" "Marketing" 65000 2]
       statics_at_start) = [1001; 1003].
Proof. reflexivity. Qed.

End EmployeeFacts.

(** ** The text processors, and chains of any length *)

Module TextFacts.
Import Cxx Decorator DecoratorFacts.
#[local] Open Scope string_scope.

Lemma compress_shape (s : string) :
  forall prevSpace : bool,
    has_double_space (compress prevSpace s) = false /\
    (prevSpace = true -> starts_with_space (compress prevSpace s) = false) /\
    without_spaces (compress prevSpace s) = without_spaces s /\
    (String.length (compress prevSpace s) <= String.length s)%nat.
Proof.
  induction s as [|c s IH]; intros prevSpace; cbn [compress].
  - now repeat split.
  - fold (is_space c). destruct (is_space c) eqn:Hc.
    + destruct prevSpace; cbn [negb].
      * destruct (IH true) as (H1 & H2 & H3 & H4).
        cbn [without_spaces String.length]. rewrite Hc.
        repeat split; auto; lia.
      * destruct (IH true) as (H1 & H2 & H3 & H4).
        cbn [has_double_space starts_with_space without_spaces String.length].
        rewrite Hc, H1, (H2 eq_refl), H3.
        repeat split; try discriminate; lia.
    + destruct (IH false) as (H1 & H2 & H3 & H4).
      cbn [has_double_space starts_with_space without_spaces String.length].
      rewrite Hc, H1, H3. repeat split; try discriminate; lia.
Qed.

Lemma compress_fixed (s : string) :
  forall prevSpace : bool,
    has_double_space s = false ->
    (prevSpace = true -> starts_with_space s = false) ->
    compress prevSpace s = s.
Proof.
  induction s as [|c s IH]; intros prevSpace Hd Hs; cbn [compress];
    [reflexivity|].
  cbn [has_double_space starts_with_space] in Hd, Hs.
  apply orb_false_iff in Hd as [Hd1 Hd2].
  fold (is_space c). destruct (is_space c) eqn:Hc.
  - destruct prevSpace; [now specialize (Hs eq_refl)|]. cbn [negb].
    rewrite IH; [reflexivity | assumption | now intros _].
  - rewrite IH; [reflexivity | assumption | discriminate].
Qed.

(** What [CompressionDecorator] gives never has two spaces in a row; the
    characters other than spaces are those of the text it was given, in the
    same order; and the text does not get longer. *)
Theorem compression_removes_double_spaces (p : TextProcessor)
  (text : string) :
  let processed := process p text in
  let compressed := process (CompressionDecorator p) text in
  has_double_space compressed = false /\
  without_spaces compressed = without_spaces processed /\
  (String.length compressed <= String.length processed)%nat.
Proof.
  cbn [process]. cbn zeta.
  destruct (compress_shape (process p text) false) as (H1 & _ & H3 & H4).
  now repeat split.
Qed.

(** Compressing twice is compressing once, and a text with no two spaces
    in a row goes through [CompressionDecorator] unchanged. *)
Theorem compression_idempotent (p : TextProcessor) (text : string) :
  process (CompressionDecorator (CompressionDecorator p)) text =
    process (CompressionDecorator p) text /\
  (has_double_space (process p text) = false ->
   process (CompressionDecorator p) text = process p text).
Proof.
  cbn [process]. split.
  - apply compress_fixed; [|discriminate].
    apply (compress_shape (process p text) false).
  - intros H. apply compress_fixed; [assumption | discriminate].
Qed.

Lemma compression_idempotent_witness :
  process (CompressionDecorator PlainTextProcessor) "a b  c" = "a b c" /\
  process (CompressionDecorator PlainTextProcessor) "a b c" = "a b c".
Proof.
  split; [reflexivity|].
  exact (proj2 (compression_idempotent PlainTextProcessor "a b c") eq_refl).
Defined.


Lemma char_of_int_code (c : ascii) : char_of_int (code c) = c.
Proof.
  unfold char_of_int. rewrite Z.mod_small by apply code_range.
  unfold code. rewrite N2Z.id. apply ascii_N_embedding.
Qed.

Lemma transform_length (f : ascii -> ascii) (s : string) :
  String.length (transform f s) = String.length s.
Proof.
  induction s as [|c s IH]; cbn [transform String.length];
    [reflexivity | now rewrite IH].
Qed.

Lemma transform_id (f : ascii -> ascii) (s : string) :
  (forall c, f c = c) -> transform f s = s.
Proof.
  intros H. induction s as [|c s IH]; cbn [transform];
    [reflexivity | now rewrite H, IH].
Qed.

(** The Caesar shift of a character, for a shift from 0 to
    [INT_MAX - 25], where the sum of the source stays an [int]: a letter
    goes to the letter of the same case [shift] places further, round the
    alphabet. *)
Lemma encrypt_char_upper (shift : Z) (c : ascii) :
  (0 <= shift <= INT_MAX - 25)%Z -> isupper c = true ->
  encrypt_char shift c = char_of_int ((code c - 65 + shift) mod 26 + 65).
Proof.
  intros Hs U. unfold encrypt_char, isalpha. rewrite U. cbn [orb].
  apply isupper_iff in U.
  rewrite IntFacts.int_wrap_id by (unfold INT_MIN, INT_MAX in *; lia).
  now rewrite Z.rem_mod_nonneg by lia.
Qed.

Lemma encrypt_char_lower (shift : Z) (c : ascii) :
  (0 <= shift <= INT_MAX - 25)%Z -> islower c = true ->
  encrypt_char shift c = char_of_int ((code c - 97 + shift) mod 26 + 97).
Proof.
  intros Hs L. unfold encrypt_char, isalpha.
  apply islower_iff in L as Hc.
  assert (isupper c = false) as ->
    by (apply not_true_is_false; rewrite isupper_iff; lia).
  rewrite L. cbn [orb].
  rewrite IntFacts.int_wrap_id by (unfold INT_MIN, INT_MAX in *; lia).
  now rewrite Z.rem_mod_nonneg by lia.
Qed.

Lemma encrypt_char_other (shift : Z) (c : ascii) :
  isalpha c = false -> encrypt_char shift c = c.
Proof. intros H. unfold encrypt_char. now rewrite H. Qed.

Lemma encrypt_char_compose (s1 s2 : Z) (c : ascii) :
  (0 <= s1)%Z -> (0 <= s2)%Z -> (s1 + s2 <= INT_MAX - 25)%Z ->
  encrypt_char s2 (encrypt_char s1 c) = encrypt_char (s1 + s2) c.
Proof.
  intros H1 H2 H3. destruct (isupper c) eqn:U; [|destruct (islower c) eqn:L].
  - apply isupper_iff in U as Hc.
    rewrite (encrypt_char_upper s1 c), (encrypt_char_upper (s1 + s2) c)
      by (assumption || lia).
    pose proof (Z.mod_pos_bound (code c - 65 + s1) 26 ltac:(lia)) as Hr.
    rewrite encrypt_char_upper;
      [|lia | apply (isupper_char (_ + 65)); lia].
    rewrite code_char_of_int by lia. f_equal. f_equal.
    replace ((code c - 65 + s1) mod 26 + 65 - 65 + s2)%Z
      with ((code c - 65 + s1) mod 26 + s2)%Z by lia.
    rewrite Z.add_mod_idemp_l by lia. f_equal. lia.
  - apply islower_iff in L as Hc.
    rewrite (encrypt_char_lower s1 c), (encrypt_char_lower (s1 + s2) c)
      by (assumption || lia).
    pose proof (Z.mod_pos_bound (code c - 97 + s1) 26 ltac:(lia)) as Hr.
    rewrite encrypt_char_lower;
      [|lia | apply (islower_char (_ + 97)); lia].
    rewrite code_char_of_int by lia. f_equal. f_equal.
    replace ((code c - 97 + s1) mod 26 + 97 - 97 + s2)%Z
      with ((code c - 97 + s1) mod 26 + s2)%Z by lia.
    rewrite Z.add_mod_idemp_l by lia. f_equal. lia.
  - assert (isalpha c = false) as A by (unfold isalpha; now rewrite U, L).
    now rewrite (encrypt_char_other s1 c A), (encrypt_char_other s2 c A),
      (encrypt_char_other (s1 + s2) c A).
Qed.

Lemma encrypt_char_26 (c : ascii) : encrypt_char 26 c = c.
Proof.
  destruct (isupper c) eqn:U; [|destruct (islower c) eqn:L].
  - apply isupper_iff in U as Hc.
    rewrite encrypt_char_upper by (unfold INT_MAX; lia || auto).
    replace ((code c - 65 + 26) mod 26)%Z with (code c - 65)%Z.
    + replace (code c - 65 + 65)%Z with (code c) by lia.
      apply char_of_int_code.
    + apply (Z.mod_unique_pos _ 26 1); lia.
  - apply islower_iff in L as Hc.
    rewrite encrypt_char_lower by (unfold INT_MAX; lia || auto).
    replace ((code c - 97 + 26) mod 26)%Z with (code c - 97)%Z.
    + replace (code c - 97 + 97)%Z with (code c) by lia.
      apply char_of_int_code.
    + apply (Z.mod_unique_pos _ 26 1); lia.
  - apply encrypt_char_other. unfold isalpha. now rewrite U, L.
Qed.

(** Caesar shifts that are not negative and whose sum is at most
    [INT_MAX - 25] add up: encrypting with [s1] and then with [s2] is
    encrypting with [s1 + s2], whatever is wrapped and whatever the text.
    The bound is needed: with the shifts 2147483640 and 7 the text "z" goes
    to "G" in two steps and to "a" in one. *)
Theorem encryption_shifts_add (p : TextProcessor) (s1 s2 : Z)
  (text : string) :
  ((0 <= s1)%Z -> (0 <= s2)%Z -> (s1 + s2 <= INT_MAX - 25)%Z ->
   process (EncryptionDecorator (EncryptionDecorator p s1) s2) text =
   process (EncryptionDecorator p (s1 + s2)) text) /\
  process (EncryptionDecorator
             (EncryptionDecorator PlainTextProcessor 2147483640) 7) "z" = "G" /\
  process (EncryptionDecorator PlainTextProcessor (2147483640 + 7)) "z" = "a".
Proof.
  split; [|split; reflexivity].
  intros H1 H2 H3. cbn [process]. rewrite transform_transform.
  apply transform_ext. intros c. now apply encrypt_char_compose.
Qed.

Lemma encryption_shifts_add_witness :
  process (EncryptionDecorator (EncryptionDecorator PlainTextProcessor 5) 2)
    "Hello World! xyz" =
  process (EncryptionDecorator PlainTextProcessor (5 + 2)) "Hello World! xyz".
Proof.
  apply (proj1 (encryption_shifts_add PlainTextProcessor 5 2
                  "Hello World! xyz")); unfold INT_MAX; lia.
Defined.

(** Decryption is encryption with the complementary shift: for a shift
    from 0 to 26, encrypting with [shift] and then with [26 - shift] gives
    the text back. Encrypting with the negated shift does not: "x", shifted
    by 3 and then by -3, is not "x" again. *)
Theorem encryption_round_trip (p : TextProcessor) (shift : Z)
  (text : string) :
  ((0 <= shift <= 26)%Z ->
   process (EncryptionDecorator (EncryptionDecorator p shift) (26 - shift))
     text = process p text) /\
  process (EncryptionDecorator (EncryptionDecorator PlainTextProcessor 3)
             (-3)) "x" <> "x".
Proof.
  split; [|vm_compute; discriminate].
  intros Hs. cbn [process]. rewrite transform_transform.
  apply transform_id. intros c.
  rewrite encrypt_char_compose by (unfold INT_MAX; lia).
  replace (shift + (26 - shift))%Z with 26%Z by lia.
  apply encrypt_char_26.
Qed.

Lemma encryption_round_trip_witness :
  process (EncryptionDecorator (EncryptionDecorator PlainTextProcessor 3)
             (26 - 3)) "Hello World! xyz" = "Hello World! xyz".
Proof.
  apply (proj1 (encryption_round_trip PlainTextProcessor 3
                  "Hello World! xyz")). lia.
Defined.

Lemma toupper_not_lower (c : ascii) : islower (toupper c) = false.
Proof.
  unfold toupper. destruct (islower c) eqn:L; [|assumption].
  apply islower_iff in L. apply (isupper_char (code c - 32)). lia.
Qed.

Lemma transform_toupper_no_lower (s : string) :
  has_lower (transform toupper s) = false.
Proof.
  induction s as [|c s IH]; cbn [transform has_lower]; [reflexivity|].
  now rewrite toupper_not_lower, IH.
Qed.

Lemma toupper_fixed (c : ascii) : islower c = false -> toupper c = c.
Proof. intros H. unfold toupper. now rewrite H. Qed.

Lemma transform_toupper_fixed (s : string) :
  has_lower s = false -> transform toupper s = s.
Proof.
  induction s as [|c s IH]; cbn [transform has_lower]; [reflexivity|].
  intros H. apply orb_false_iff in H as [H1 H2].
  now rewrite toupper_fixed, IH.
Qed.

(** What [UpperCaseDecorator] gives has no lower-case letter and the
    length of the text it was given; upper-casing twice is upper-casing
    once. *)
Theorem upper_case_no_lower (p : TextProcessor) (text : string) :
  has_lower (process (UpperCaseDecorator p) text) = false /\
  String.length (process (UpperCaseDecorator p) text) =
    String.length (process p text) /\
  process (UpperCaseDecorator (UpperCaseDecorator p)) text =
    process (UpperCaseDecorator p) text.
Proof.
  cbn [process]. split; [apply transform_toupper_no_lower|].
  split; [apply transform_length|].
  apply transform_toupper_fixed, transform_toupper_no_lower.
Qed.

(** The Caesar shift keeps the shape of the text: the same length, and
    for a shift from 0 to [INT_MAX - 25], upper-case letters at the places
    of upper-case letters, lower-case letters at the places of lower-case
    letters, and every other character as it was. Beyond that bound the
    sum of the source leaves [int]: at the shift [INT_MAX] the lower-case
    letter "b" goes to the upper-case letter "I". *)
Theorem encryption_keeps_shape (shift : Z) :
  (forall (p : TextProcessor) (text : string),
     String.length (process (EncryptionDecorator p shift) text) =
       String.length (process p text)) /\
  ((0 <= shift <= INT_MAX - 25)%Z ->
   forall c : ascii,
     isupper (encrypt_char shift c) = isupper c /\
     islower (encrypt_char shift c) = islower c /\
     (isalpha c = false -> encrypt_char shift c = c)) /\
  encrypt_char INT_MAX "b" = "I"%char.
Proof.
  split; [intros p text; cbn [process]; apply transform_length|].
  split; [|reflexivity].
  intros Hs c. split; [|split; [|apply encrypt_char_other]].
  - destruct (isupper c) eqn:U; [|destruct (islower c) eqn:L].
    + apply isupper_iff in U as Hc. rewrite encrypt_char_upper by auto.
      pose proof (Z.mod_pos_bound (code c - 65 + shift) 26 ltac:(lia)).
      apply (isupper_char (_ + 65)). lia.
    + apply islower_iff in L as Hc. rewrite encrypt_char_lower by auto.
      pose proof (Z.mod_pos_bound (code c - 97 + shift) 26 ltac:(lia)).
      apply (islower_char (_ + 97)). lia.
    + rewrite encrypt_char_other; [assumption|].
      unfold isalpha. now rewrite U, L.
  - destruct (islower c) eqn:L; [|destruct (isupper c) eqn:U].
    + apply islower_iff in L as Hc. rewrite encrypt_char_lower by auto.
      pose proof (Z.mod_pos_bound (code c - 97 + shift) 26 ltac:(lia)).
      apply (islower_char (_ + 97)). lia.
    + apply isupper_iff in U as Hc. rewrite encrypt_char_upper by auto.
      pose proof (Z.mod_pos_bound (code c - 65 + shift) 26 ltac:(lia)).
      apply (isupper_char (_ + 65)). lia.
    + rewrite encrypt_char_other; [assumption|].
      unfold isalpha. now rewrite U, L.
Qed.

Lemma encryption_keeps_shape_witness :
  isupper (encrypt_char 5 "Z") = isupper "Z" /\
  islower (encrypt_char 5 "Z") = islower "Z" /\
  (isalpha "Z" = false -> encrypt_char 5 "Z" = "Z"%char).
Proof.
  apply (proj1 (proj2 (encryption_keeps_shape 5))). unfold INT_MAX. lia.
Defined.


Lemma fold_append (f : list string) :
  forall s : string,
    fold_left (fun acc x => acc ++ x) f s = s ++ concat_all f.
Proof.
  induction f as [|x f IH]; intros s; cbn [fold_left concat_all].
  - induction s as [|c s IHs]; [reflexivity|].
    change (String c s = String c (s ++ "")). now f_equal.
  - now rewrite IH, append_assoc.
Qed.

Lemma getProcessingInfo_wrap (d : text_decorator) (p : TextProcessor) :
  getProcessingInfo (text_wrap d p) = getProcessingInfo p ++ text_suffix d.
Proof. now destruct d. Qed.

(** A chain of any length: the description is the base's followed by the
    suffixes of the decorators in wrapping order, the cost is the base's
    with the deltas added one after the other in that order, and the same
    holds of the processing info of a chain of text decorators. *)
Theorem chain_of_any_length :
  (forall (base : Coffee) (ds : list decorator),
     getDescription (decorate base ds) =
       getDescription base ++ concat_all (map suffix ds) /\
     getCost (decorate base ds) =
       fold_left (fun x d => (x + delta d)%float) ds (getCost base)) /\
  (forall (base : TextProcessor) (ds : list text_decorator),
     getProcessingInfo (text_decorate base ds) =
       getProcessingInfo base ++ concat_all (map text_suffix ds)).
Proof.
  split.
  - intros base ds. split.
    + rewrite <- fold_append. unfold decorate. revert base.
      induction ds as [|d ds IH]; intros base; cbn [fold_left map];
        [reflexivity|].
      now rewrite IH, getDescription_wrap.
    + unfold decorate. revert base.
      induction ds as [|d ds IH]; intros base; cbn [fold_left];
        [reflexivity|].
      now rewrite IH, getCost_wrap.
  - intros base ds. rewrite <- fold_append. unfold text_decorate.
    revert base.
    induction ds as [|d ds IH]; intros base; cbn [fold_left map];
      [reflexivity|].
    now rewrite IH, getProcessingInfo_wrap.
Qed.

End TextFacts.


(** ** The observers *)

Module ObserverFacts.
Import Cxx ObserverPattern.
#[local] Open Scope string_scope.
#[local] Open Scope list_scope.

Lemma find_None (o : positive) (l : list positive) :
  find o l = None <-> ~ In o l.
Proof.
  induction l as [|x l IH]; cbn [find In]; [tauto|].
  destruct (Pos.eqb_spec x o) as [->|Hne].
  - split; [discriminate | intros H; exfalso; apply H; now left].
  - destruct (find o l) as [n|].
    + split; [discriminate|]. intros H.
      assert (~ In o l) as N by tauto. apply IH in N. discriminate N.
    + split; [|reflexivity]. intros _ [H|H]; [contradiction|].
      now apply (proj1 IH).
Qed.

Lemma find_Some (o : positive) (l : list positive) (i : nat) :
  find o l = Some i ->
  exists l1 l2 : list positive,
    l = l1 ++ o :: l2 /\ ~ In o l1 /\ erase i l = l1 ++ l2.
Proof.
  revert i. induction l as [|x l IH]; intros i; cbn [find]; [discriminate|].
  destruct (Pos.eqb_spec x o) as [->|Hne].
  - intros [= <-]. exists [], l. now repeat split.
  - destruct (find o l) as [j|]; [|discriminate]. intros [= <-].
    destruct (IH j eq_refl) as (l1 & l2 & -> & Hn & He).
    exists (x :: l1), l2. cbn [erase app]. rewrite He. repeat split.
    intros [H|H]; [congruence | contradiction].
Qed.

Section SubjectFacts.

Variable deref : positive -> Observer.

(** [detach] takes away one attachment, the earliest: where the observer
    is attached, the list loses its first occurrence and nothing else, so an
    observer attached twice stays attached once; where it is not attached,
    [detach] does nothing and prints nothing; and attaching an observer
    that was not attached and detaching it again gives the subject back. *)
Theorem detach_first_attachment (o : positive) (w : world) :
  (~ In o (observers (subject w)) -> detach deref o w = w) /\
  (In o (observers (subject w)) ->
   exists l1 l2 : list positive,
     observers (subject w) = l1 ++ o :: l2 /\ ~ In o l1 /\
     observers (subject (detach deref o w)) = l1 ++ l2 /\
     state (subject (detach deref o w)) = state (subject w)) /\
  (~ In o (observers (subject w)) ->
   subject (detach deref o (attach deref o w)) = subject w).
Proof.
  split; [|split].
  - intros H. unfold detach. apply find_None in H. now rewrite H.
  - intros H. unfold detach.
    destruct (find o (observers (subject w))) as [i|] eqn:Hf.
    + destruct (find_Some o _ i Hf) as (l1 & l2 & Hl & Hn & He).
      exists l1, l2. cbn. now repeat split.
    + apply find_None in Hf. contradiction.
  - intros H. unfold detach, attach. cbn [subject observers state].
    destruct (find o (observers (subject w) ++ [o])) as [i|] eqn:Hf.
    + destruct (find_Some o _ i Hf) as (l1 & l2 & Hl & Hn & He).
      cbn [subject]. rewrite He.
      assert (l1 = observers (subject w) /\ l2 = []) as [-> ->].
      { clear He Hf. revert l1 Hl Hn H.
        generalize (observers (subject w)) as l.
        induction l as [|x l IH]; intros l1 Hl Hn H.
        - destruct l1 as [|y l1]; cbn in Hl.
          + injection Hl as <-. now split.
          + injection Hl as <- Hl. exfalso. apply Hn. now left.
        - destruct l1 as [|y l1]; cbn in Hl.
          + injection Hl as <- _. exfalso. apply H. now left.
          + injection Hl as <- Hl.
            destruct (IH l1 Hl) as [-> ->];
              [intros C; apply Hn; now right
              |intros C; apply H; now right|].
            now split. }
      rewrite app_nil_r. now destruct w as [[l st] out].
    + apply find_None in Hf. exfalso. apply Hf, in_app_iff. right. now left.
Qed.

Lemma notify_each_flat_map (l : list positive) (m : string) :
  forall out : ostream,
    notify_each deref l m out =
      out ++ flat_map (fun o => update (deref o) m) l.
Proof.
  induction l as [|o l IH]; intros out; cbn [notify_each flat_map].
  - now rewrite app_nil_r.
  - rewrite IH. symmetry. apply app_assoc.
Qed.

(** [setState] tells every attached observer the new state, once for each
    attachment and in the order of attachment, after the two lines the
    subject prints itself; the list of observers is not changed. *)
Theorem setState_notifies_in_order (newState : string) (w : world) :
  subject (setState deref newState w) =
    mkSubject (observers (subject w)) newState /\
  cout (setState deref newState w) =
    cout w
    ++ [OStr "Subject state changed to: "; OStr newState; OEndl]
    ++ [OStr "Notifying "; OSize (List.length (observers (subject w)));
        OStr " observers..."; OEndl]
    ++ flat_map (fun o => update (deref o) newState) (observers (subject w)).
Proof.
  unfold setState, notify. cbn [subject cout observers state].
  split; [reflexivity|].
  rewrite notify_each_flat_map. now rewrite <- !app_assoc.
Qed.

End SubjectFacts.

Lemma detach_first_attachment_witness :
  let deref := fun _ : positive => EmailNotifier "user@example.com" in
  let w := mkWorld (mkSubject [1; 2; 1]%positive "") [] in
  exists l1 l2 : list positive,
    [1; 2; 1]%positive = l1 ++ 1%positive :: l2 /\ ~ In 1%positive l1 /\
    observers (subject (detach deref 1 w)) = l1 ++ l2 /\
    state (subject (detach deref 1 w)) = "".
Proof.
  intros deref w.
  refine (proj1 (proj2 (detach_first_attachment deref 1 w)) _). now left.
Defined.


Lemma first_stock_None (sym : string) (l : list StockPrice) :
  first_stock sym l = None <-> ~ In sym (map symbol l).
Proof.
  induction l as [|st l IH]; cbn [first_stock map In]; [tauto|].
  destruct (String.eqb_spec (symbol st) sym) as [E|N].
  - split; [discriminate | intros H; exfalso; apply H; now left].
  - rewrite IH. tauto.
Qed.

Lemma first_stock_snoc (sym other : string) (p c : float)
  (l : list StockPrice) :
  first_stock other (l ++ [mkStockPrice sym p c]) =
    match first_stock other l with
    | Some st => Some st
    | None => if String.eqb sym other then Some (mkStockPrice sym p c) else None
    end.
Proof.
  induction l as [|st l IH]; cbn [first_stock app symbol]; [reflexivity|].
  now destruct (String.eqb (symbol st) other).
Qed.

Lemma update_found_spec (sym : string) (p : float) (l : list StockPrice) :
  match first_stock sym l with
  | None => update_found sym p l = None
  | Some old =>
      exists l' : list StockPrice,
        update_found sym p l = Some l' /\
        map symbol l' = map symbol l /\
        first_stock sym l' =
          Some (mkStockPrice sym p (PrimFloat.sub p (price old))) /\
        forall other : string,
          other <> sym -> first_stock other l' = first_stock other l
  end.
Proof.
  induction l as [|st l IH]; cbn [first_stock update_found]; [reflexivity|].
  destruct (String.eqb_spec (symbol st) sym) as [E|N].
  - eexists. split; [reflexivity|]. cbn [map symbol first_stock].
    rewrite E, String.eqb_refl. repeat split.
    intros other Ho. destruct (String.eqb_spec sym other); congruence.
  - destruct (first_stock sym l) as [old|].
    + destruct IH as (l' & -> & Hm & Hf & Ho).
      eexists. split; [reflexivity|]. cbn [map first_stock].
      rewrite Hm. destruct (String.eqb_spec (symbol st) sym); [contradiction|].
      repeat split; [assumption|].
      intros other Hne. rewrite (Ho other Hne). reflexivity.
    + now rewrite IH.
Qed.

Section MarketFacts.

Variable deref : positive -> Observer.
Variable double_to_string : float -> string.

(** After [updateStock(symbol, newPrice)] the market lists the symbol with
    that price: the stock found under the symbol is the one updated, its
    change the new price minus the old one, or a new stock with change 0
    if the symbol was not listed; the stocks under other symbols are as
    before; and symbols that were listed once each still are. *)
Theorem updateStock_sets_price (sym : string) (newPrice : float)
  (m : StockMarket) :
  let m' := updateStock deref double_to_string sym newPrice m in
  first_stock sym (stocks m') =
    Some (mkStockPrice sym newPrice
            match first_stock sym (stocks m) with
            | Some old => PrimFloat.sub newPrice (price old)
            | None => 0%float
            end) /\
  (forall other : string,
     other <> sym ->
     first_stock other (stocks m') = first_stock other (stocks m)) /\
  (List.NoDup (map symbol (stocks m)) ->
   List.NoDup (map symbol (stocks m'))) /\
  List.length (stocks m') =
    (List.length (stocks m)
     + match first_stock sym (stocks m) with Some _ => 0 | None => 1 end)%nat.
Proof.
  cbn zeta. unfold updateStock. cbn [stocks]. unfold updateStock_stocks.
  pose proof (update_found_spec sym newPrice (stocks m)) as H.
  destruct (first_stock sym (stocks m)) as [old|] eqn:Hf.
  - destruct H as (l' & -> & Hm & Hs & Ho).
    split; [assumption|]. split; [assumption|]. split; [now rewrite Hm|].
    rewrite Nat.add_0_r, <- (length_map symbol l'), Hm.
    apply length_map.
  - rewrite H. split; [|split; [|split]].
    + rewrite first_stock_snoc, Hf, String.eqb_refl. reflexivity.
    + intros other Hne. rewrite first_stock_snoc.
      destruct (first_stock other (stocks m)); [reflexivity|].
      destruct (String.eqb_spec sym other); congruence.
    + intros Hnd. rewrite map_app. cbn [map symbol].
      apply ListFacts.NoDup_push_back; [assumption|].
      now apply first_stock_None.
    + rewrite length_app. reflexivity.
Qed.

End MarketFacts.

Lemma updateStock_sets_price_witness :
  let deref := fun _ : positive => StockDisplay "Trading Dashboard" in
  let double_to_string := fun _ : float => "152.300000" in
  let m := mkStockMarket (mkWorld (mkSubject [] "") [])
             [mkStockPrice "AAPL" 150.25 0; mkStockPrice "GOOGL" 2800.5 0] in
  List.NoDup
    (map symbol
       (stocks (updateStock deref double_to_string "AAPL" 152.3 m))).
Proof.
  intros deref double_to_string m.
  refine (proj1 (proj2 (proj2 (updateStock_sets_price deref double_to_string
                                 "AAPL" 152.3 m))) _).
  cbn. repeat constructor; cbn; intuition discriminate.
Defined.

Lemma erase_length {A : Type} (i : nat) (l : list A) :
  (i < List.length l)%nat ->
  List.length (erase i l) = (List.length l - 1)%nat.
Proof.
  revert i. induction l as [|x l IH]; intros i Hi; cbn [List.length] in *;
    [lia|].
  destruct i as [|i]; cbn [erase List.length]; [lia|].
  rewrite IH by lia. lia.
Qed.

Lemma erase_nth_error {A : Type} (i j : nat) (l : list A) :
  nth_error (erase i l) j =
    if (j <? i)%nat then nth_error l j else nth_error l (S j).
Proof.
  revert i j. induction l as [|x l IH]; intros i j.
  - assert (erase i (@nil A) = []) as -> by now destruct i.
    destruct (j <? i)%nat; now destruct j.
  - destruct i as [|i]; cbn [erase].
    + reflexivity.
    + destruct j as [|j]; cbn [nth_error]; [reflexivity|].
      rewrite IH. change (S j <? S i)%nat with (j <? i)%nat. reflexivity.
Qed.

Lemma erase_last {A : Type} (l : list A) (x : A) :
  erase (List.length l) (l ++ [x]) = l.
Proof.
  induction l as [|y l IH]; cbn [erase List.length app];
    [reflexivity | now rewrite IH].
Qed.

(** [unsubscribe(index)] takes out the callback at that place and no
    other: the ones before it keep their place, the ones after it move one
    place down; an index past the end does nothing; and unsubscribing the
    place a [subscribe] just filled gives the subject back. *)
Theorem unsubscribe_by_index (T : Type) (index : nat)
  (m : ModernSubject T) :
  ((List.length (callbacks T m) <= index)%nat -> unsubscribe T index m = m) /\
  ((index < List.length (callbacks T m))%nat ->
   List.length (callbacks T (unsubscribe T index m)) =
     (List.length (callbacks T m) - 1)%nat /\
   forall j : nat,
     nth_error (callbacks T (unsubscribe T index m)) j =
       if (j <? index)%nat then nth_error (callbacks T m) j
       else nth_error (callbacks T m) (S j)) /\
  (forall observer : T -> list out_item,
     unsubscribe T (List.length (callbacks T m)) (subscribe T observer m)
     = m).
Proof.
  unfold unsubscribe, subscribe. split; [|split].
  - intros H. destruct (Nat.ltb_spec index (List.length (callbacks T m)));
      [lia | reflexivity].
  - intros H. destruct (Nat.ltb_spec index (List.length (callbacks T m)));
      [|lia].
    cbn [callbacks]. split; [now apply erase_length|].
    intros j. apply erase_nth_error.
  - intros observer. cbn [callbacks data]. rewrite length_app.
    cbn [List.length].
    destruct (Nat.ltb_spec (List.length (callbacks T m))
                (List.length (callbacks T m) + 1)); [|lia].
    rewrite erase_last. now destruct m.
Qed.

Lemma unsubscribe_by_index_witness :
  let m := mkModernSubject string
             [fun d => [OStr "1: "; OStr d]; fun d => [OStr "2: "; OStr d]]
             "" in
  unsubscribe string 2 m = m.
Proof.
  intros m. apply (proj1 (unsubscribe_by_index string 2 m)). cbn. lia.
Defined.

Lemma EventType_eqb_eq (a b : EventType) :
  EventType_eqb a b = true <-> a = b.
Proof. destruct a, b; cbn; split; congruence. Qed.

(** A listener is called for its own event type only, after the listeners
    registered for that type before it: registering a listener for one type
    adds its output at the end of what [triggerEvent] prints for that type,
    and changes nothing of what it prints for another type; with no listener
    registered, [triggerEvent] prints its own line alone. *)
Theorem listeners_are_per_event_type (type t : EventType)
  (listener : string -> list out_item) (data : string) (es : EventSystem) :
  triggerEvent type data (addEventListener type listener es) =
    triggerEvent type data es ++ listener data /\
  (t <> type ->
   triggerEvent t data (addEventListener type listener es) =
     triggerEvent t data es) /\
  triggerEvent t data no_listeners =
    [OStr "🎯 Event triggered: "; OStr (eventName t);
     OStr " with data: "; OStr data; OEndl].
Proof.
  unfold triggerEvent, addEventListener. split; [|split].
  - assert (EventType_eqb type type = true) as -> by now apply EventType_eqb_eq.
    rewrite flat_map_app. cbn [flat_map]. rewrite app_nil_r.
    now rewrite <- !app_assoc.
  - intros Hne.
    destruct (EventType_eqb t type) eqn:E; [|reflexivity].
    apply EventType_eqb_eq in E. contradiction.
  - reflexivity.
Qed.

Lemma listeners_are_per_event_type_witness :
  let es := addEventListener USER_LOGIN
              (fun d => [OStr "   Analytics: User logged in - "; OStr d; OEndl])
              no_listeners in
  triggerEvent PAYMENT_SUCCESS "PAY-67890"
    (addEventListener ORDER_PLACED
       (fun d => [OStr "   Email: Sending confirmation for order - "; OStr d;
                  OEndl]) es) =
  triggerEvent PAYMENT_SUCCESS "PAY-67890" es.
Proof.
  intros es.
  apply (proj1 (proj2 (listeners_are_per_event_type ORDER_PLACED
                         PAYMENT_SUCCESS _ "PAY-67890" es))).
  discriminate.
Defined.

End ObserverFacts.

(** ** The singleton holders, over whole runs *)

Module ProcessFacts.
Import Cxx Singleton SingletonFacts.
#[local] Open Scope string_scope.

Lemma run_before_first_call (sts : list step) :
  forall p : process,
    instance p = None -> heap p = ∅ ->
    match first_connection sts with
    | None => instance (run sts p) = None /\ heap (run sts p) = ∅
    | Some conn_str =>
        exists a : positive,
          instance (run sts p) = Some a /\
          heap (run sts p) = {[ a := mkDatabaseConnection conn_str ]}
    end.
Proof.
  induction sts as [|st sts IH]; intros p Hi Hh; cbn [first_connection run].
  - now split.
  - destruct st as [c|r sql| |m| |e]; cbn [exec].
    + unfold DatabaseConnection_getInstance. rewrite Hi. cbn [snd].
      match goal with
      | |- context [run sts ?q] =>
          destruct (run_keeps_instance sts q (fresh (dom (heap p))) eq_refl)
            as [H1 H2]
      end.
      eexists. split; [exact H1|]. rewrite H2. cbn [heap]. now rewrite Hh.
    + apply IH.
      * unfold query. destruct r as [b| |]; [|assumption|assumption].
        destruct (heap p !! b); assumption.
      * unfold query. destruct r as [b| |]; [|assumption|assumption].
        destruct (heap p !! b); assumption.
    + now apply IH.
    + now apply IH.
    + apply IH; unfold ConfigManager_getInstance; cbn [snd];
        destruct (ConfigManager_static p); assumption.
    + apply IH; unfold setEnvironment;
        destruct (ConfigManager_static p); assumption.
Qed.

(** At most one [DatabaseConnection] is ever made: whatever the steps of
    a run of the process, there is no connection when none of them calls the
    accessor, and otherwise exactly one object, the one the static pointer
    points to, with the connection string of the first call. *)
Theorem at_most_one_connection (sts : list step) :
  match first_connection sts with
  | None => instance (run sts start) = None /\ heap (run sts start) = ∅
  | Some conn_str =>
      exists a : positive,
        instance (run sts start) = Some a /\
        heap (run sts start) = {[ a := mkDatabaseConnection conn_str ]}
  end.
Proof. now apply run_before_first_call. Qed.

Lemma exec_config_consistent (st : step) (p : process) :
  (forall cm, ConfigManager_static p = Some cm ->
              config_path cm = path_of (env cm)) ->
  forall cm, ConfigManager_static (snd (exec st p)) = Some cm ->
             config_path cm = path_of (env cm).
Proof.
  intros Hp cm. destruct st as [c|r sql| |m| |e]; cbn [exec].
  - unfold DatabaseConnection_getInstance.
    destruct (instance p); cbn; apply Hp.
  - unfold query. destruct r as [b| |]; try apply Hp.
    destruct (heap p !! b); cbn; apply Hp.
  - cbn. apply Hp.
  - cbn. apply Hp.
  - unfold ConfigManager_getInstance. cbn [snd].
    destruct (ConfigManager_static p) eqn:E;
      [intros H; apply Hp; cbn in H; congruence|].
    cbn. now intros [= <-].
  - unfold setEnvironment.
    destruct (ConfigManager_static p) eqn:E;
      [|intros H; cbn in H; congruence].
    cbn. intros [= <-]. now destruct e.
Qed.

Lemma exec_keeps_config (st : step) (p : process) (cm : ConfigManager) :
  is_setEnvironment st = false ->
  ConfigManager_static p = Some cm ->
  ConfigManager_static (snd (exec st p)) = Some cm.
Proof.
  intros Hst Hp. destruct st as [c|r sql| |m| |e]; cbn [exec];
    try discriminate Hst.
  - unfold DatabaseConnection_getInstance. now destruct (instance p).
  - unfold query. destruct r as [b| |]; try assumption.
    now destruct (heap p !! b).
  - assumption.
  - assumption.
  - unfold ConfigManager_getInstance. now rewrite Hp.
Qed.

(** The configuration is one object with one state: in any run of the
    process the config path is the one of the environment set; and what
    [setEnvironment] sets stays, whatever accessors are called and whatever
    else is done, until the next [setEnvironment] (a later
    [ConfigManager::getInstance] does not bring back the defaults). *)
Theorem configuration_is_shared (sts : list step) :
  (forall cm : ConfigManager,
     ConfigManager_static (run sts start) = Some cm ->
     config_path cm = path_of (env cm)) /\
  (forall (p : process) (e : Environment),
     ConfigManager_static p <> None ->
     forallb (fun st => negb (is_setEnvironment st)) sts = true ->
     ConfigManager_static (run sts (setEnvironment e p)) =
       Some (mkConfigManager e (path_of e))).
Proof.
  split.
  - assert (forall p : process,
              (forall cm, ConfigManager_static p = Some cm ->
                          config_path cm = path_of (env cm)) ->
              forall cm, ConfigManager_static (run sts p) = Some cm ->
                         config_path cm = path_of (env cm)) as H.
    { induction sts as [|st sts IH]; intros p Hp; cbn [run]; [exact Hp|].
      apply IH. now apply exec_config_consistent. }
    apply H. intros cm. discriminate.
  - intros p e Hp Hno.
    assert (ConfigManager_static (setEnvironment e p) =
              Some (mkConfigManager e (path_of e))) as H0.
    { unfold setEnvironment. destruct (ConfigManager_static p);
        [now destruct e | contradiction]. }
    revert H0. generalize (setEnvironment e p) as q.
    induction sts as [|st sts IH]; intros q Hq; cbn [run]; [exact Hq|].
    cbn [forallb] in Hno. apply andb_true_iff in Hno as [H1 H2].
    apply IH; [assumption|].
    apply exec_keeps_config; [|assumption].
    now destruct (is_setEnvironment st).
Qed.

Lemma configuration_is_shared_witness :
  ConfigManager_static
    (run [call_ConfigManager_getInstance; call_Logger_info "started"]
       (setEnvironment PRODUCTION (snd (ConfigManager_getInstance start)))) =
    Some (mkConfigManager PRODUCTION "config/prod.json").
Proof.
  refine (proj2 (configuration_is_shared
                   [call_ConfigManager_getInstance;
                    call_Logger_info "started"])
            (snd (ConfigManager_getInstance start)) PRODUCTION _ eq_refl).
  discriminate.
Defined.

End ProcessFacts.

(** ** The factories *)

Module FactoryFacts.
Import Cxx Factory.
#[local] Open Scope string_scope.

(** The two factories of [ShapeFactory] agree: for each of the three
    classes, the factory by name at the lower-case name and the factory by
    type at the enumerator make the same shape, of that class, with the same
    parameters. Everywhere else both give [nullptr]: the factory by type for
    a value that is none of the three enumerators (the [default:] branch),
    the factory by name for any other string (also "Circle"). *)
Theorem createShape_by_name_spec (type : string) (t : ShapeType)
  (param1 param2 : float) :
  (forall T : shape_class,
     createShape_by_name (name_of T) param1 param2
       = createShape (enumerator T) param1 param2 /\
     exists s : Shape,
       createShape (enumerator T) param1 param2 = Some s /\ class_of s = T) /\
  ((forall T : shape_class, t <> enumerator T) ->
   createShape t param1 param2 = None) /\
  (forall s : Shape,
     createShape t param1 param2 = Some s -> t = enumerator (class_of s)) /\
  ((forall T : shape_class, type <> name_of T) ->
   createShape_by_name type param1 param2 = None) /\
  (forall s : Shape,
     createShape_by_name type param1 param2 = Some s ->
     type = name_of (class_of s)).
Proof.
  split; [|split; [|split; [|split]]].
  - intros T. destruct T; (split; [reflexivity | eexists; now split]).
  - intros H. unfold createShape.
    destruct (Z.eqb_spec t CIRCLE) as [E|_];
      [exfalso; exact (H Circle_class E)|].
    destruct (Z.eqb_spec t RECTANGLE) as [E|_];
      [exfalso; exact (H Rectangle_class E)|].
    destruct (Z.eqb_spec t TRIANGLE) as [E|_];
      [exfalso; exact (H Triangle_class E)|].
    reflexivity.
  - intros s. unfold createShape.
    destruct (Z.eqb_spec t CIRCLE) as [E|_]; [now intros [= <-]|].
    destruct (Z.eqb_spec t RECTANGLE) as [E|_]; [now intros [= <-]|].
    destruct (Z.eqb_spec t TRIANGLE) as [E|_];
      [now intros [= <-] | discriminate].
  - intros H. unfold createShape_by_name.
    destruct (String.eqb_spec type "circle") as [E|_];
      [exfalso; exact (H Circle_class E)|].
    destruct (String.eqb_spec type "rectangle") as [E|_];
      [exfalso; exact (H Rectangle_class E)|].
    destruct (String.eqb_spec type "triangle") as [E|_];
      [exfalso; exact (H Triangle_class E)|].
    reflexivity.
  - intros s. unfold createShape_by_name.
    destruct (String.eqb_spec type "circle") as [E|_];
      [now intros [= <-]|].
    destruct (String.eqb_spec type "rectangle") as [E|_];
      [now intros [= <-]|].
    destruct (String.eqb_spec type "triangle") as [E|_];
      [now intros [= <-] | discriminate].
Qed.

Lemma createShape_by_name_spec_witness :
  createShape 7 5 0 = None /\ createShape_by_name "Circle" 5 0 = None.
Proof.
  pose proof (createShape_by_name_spec "Circle" 7 5 0) as (_ & H1 & _ & H2 & _).
  split.
  - apply H1. intros T. destruct T; discriminate.
  - apply H2. intros T. destruct T; discriminate.
Defined.

(** The registry is a map from names to classes: [create] makes a shape
    of the class last registered under the name (the shape
    [ShapeFactory::createShape] makes at the enumerator of the class), gives
    [nullptr] for a name never registered, and a registration under one name
    changes nothing for another name. *)
Theorem registry_create_after_register (T : shape_class)
  (name other : string)
  (creators : gmap string shape_class) (param1 param2 : float) :
  create (registerShape T name creators) name param1 param2 =
    createShape (enumerator T) param1 param2 /\
  (other <> name ->
   create (registerShape T name creators) other param1 param2 =
     create creators other param1 param2) /\
  (forall T' : shape_class,
     registerShape T name (registerShape T' name creators) =
       registerShape T name creators) /\
  create ∅ name param1 param2 = None.
Proof.
  unfold create, registerShape. split; [|split; [|split]].
  - rewrite lookup_insert_eq. now destruct T.
  - intros Hne. now rewrite lookup_insert_ne by congruence.
  - intros T'. apply insert_insert_eq.
  - now rewrite lookup_empty.
Qed.

Lemma registry_create_after_register_witness :
  create (registerShape Circle_class "circle" ∅) "rectangle" 3 0 =
    create ∅ "rectangle" 3 0.
Proof.
  apply (proj1 (proj2 (registry_create_after_register Circle_class "circle"
                         "rectangle" ∅ 3 0))).
  discriminate.
Defined.

End FactoryFacts.
